(** * ieee754.c: bit-field decomposition of binary32 / binary64 values

    A shallow embedding of [ieee754.c].  Unsigned machine integers are
    integers of [Z] together with their range; a C [float] or [double]
    object is identified with its object representation, the 32 or 64 bits
    that [memcpy] copies.  The numeric value of such an object (needed by
    [printf]'s [%g] conversion, by the literals of [main] and by unary
    minus) is given by the IEEE-754 interchange encoding, which the
    program assumes of its platform. *)

From Stdlib Require Import ZArith Lia Bool List Ascii String.
From Stdlib Require Import SpecFloat.
Import ListNotations.

Local Open Scope Z_scope.

(** ** Machine types *)

Definition uint32_t := Z.
Definition uint64_t := Z.

(** The object representation of a [float] and of a [double]. *)
Definition float := Z.
Definition double := Z.

Definition is_u32 (x : Z) : Prop := 0 <= x < 2 ^ 32.
Definition is_u64 (x : Z) : Prop := 0 <= x < 2 ^ 64.
Definition is_float (f : float) : Prop := 0 <= f < 2 ^ 32.
Definition is_double (d : double) : Prop := 0 <= d < 2 ^ 64.

(** ** Storage reinterpretation

    [memcpy(&u, &f, sizeof u)] copies the [sizeof u] bytes of the source
    object into [u]: the low 32 (resp. 64) bits of the representation. *)

Definition memcpy (size : Z) (src : Z) : Z := Z.land src (Z.ones (8 * size)).

Definition float_to_u32 (f : float) : uint32_t :=
  let u := memcpy 4 f in
  u.

Definition double_to_u64 (d : double) : uint64_t :=
  let u := memcpy 8 d in
  u.

(** ** Field extraction

    The locals [u], [sign], [exp] and [frac] of [decode_float] and
    [decode_double], gathered in one record per decoded value. *)

Record FloatBits : Type := mkFloatBits {
  width : Z;
  raw : Z;
  sign : Z;
  exponent : Z;
  fraction : Z
}.

Definition float_bits (f : float) : FloatBits :=
  let u := float_to_u32 f in
  let sign := Z.land (Z.shiftr u 31) 1 in
  let exp := Z.land (Z.shiftr u 23) 0xFF in
  let frac := Z.land u 0x7FFFFF in
  mkFloatBits 32 u sign exp frac.

Definition double_bits (d : double) : FloatBits :=
  let u := double_to_u64 d in
  let sign := Z.land (Z.shiftr u 63) 1 in
  let exp := Z.land (Z.shiftr u 52) 0x7FF in
  let frac := Z.land u 0xFFFFFFFFFFFFF in
  mkFloatBits 64 u sign exp frac.

(** The layout constants of the two formats. *)
Definition fraction_width (w : Z) : Z := if w =? 32 then 23 else 52.
Definition exponent_width (w : Z) : Z := if w =? 32 then 8 else 11.

(** Reassembly of a raw pattern from the three fields. *)
Definition join_fields (b : FloatBits) : Z :=
  Z.lor (Z.lor (Z.shiftl (sign b) (width b - 1))
               (Z.shiftl (exponent b) (fraction_width (width b))))
        (fraction b).

(** ** Numeric reading of a representation (IEEE-754 interchange formats)

    [prec] counts the significand bits including the implicit one and
    [emax] is the exponent of the infinities, as in [SpecFloat]:
    binary32 is [prec = 24], [emax = 128]; binary64 is [prec = 53],
    [emax = 1024]. *)

Module IEEE.

Definition biased_max (emax : Z) : Z := 2 * emax - 1.

(** The datum denoted by a sign bit, a biased exponent and a trailing
    significand. *)
Definition SF_of_fields (prec emax : Z) (s : bool) (e m : Z) : spec_float :=
  if e =? 0 then
    match m with
    | Zpos p => S754_finite s p (emin prec emax)
    | _ => S754_zero s
    end
  else if e =? biased_max emax then
    if m =? 0 then S754_infinity s else S754_nan
  else
    match m + 2 ^ (prec - 1) with
    | Zpos p => S754_finite s p (e + emin prec emax - 1)
    | _ => S754_nan
    end.

(** Decoding of a [1 + ew + (prec - 1)]-bit pattern, by division. *)
Definition sign_of_bits (prec emax : Z) (x : Z) : bool :=
  Z.odd (x / (2 ^ (prec - 1) * (2 * emax))).

Definition SF_of_bits (prec emax : Z) (x : Z) : spec_float :=
  let m := x mod 2 ^ (prec - 1) in
  let e := (x / 2 ^ (prec - 1)) mod (2 * emax) in
  SF_of_fields prec emax (sign_of_bits prec emax x) e m.

(** Encoding of a datum; NaN is encoded as the positive quiet NaN with
    empty payload. *)
Definition pack (prec emax : Z) (s : bool) (e m : Z) : Z :=
  ((if s then 2 * emax else 0) + e) * 2 ^ (prec - 1) + m.

Definition bits_of_SF (prec emax : Z) (x : spec_float) : Z :=
  match x with
  | S754_zero s => pack prec emax s 0 0
  | S754_infinity s => pack prec emax s (biased_max emax) 0
  | S754_nan => pack prec emax false (biased_max emax) (2 ^ (prec - 2))
  | S754_finite s m e =>
      if 2 ^ (prec - 1) <=? Zpos m
      then pack prec emax s (e - emin prec emax + 1) (Zpos m - 2 ^ (prec - 1))
      else pack prec emax s 0 (Zpos m)
  end.

(** A decimal literal [m * 10^(-k)] with [m] and [10^k] exactly
    representable: the correctly rounded quotient. *)
Definition SF_of_decimal (prec emax : Z) (m : Z) (k : Z) : spec_float :=
  SFdiv prec emax (binary_normalize prec emax m 0 false)
                  (binary_normalize prec emax (10 ^ k) 0 false).

End IEEE.

Definition float_value (f : float) : spec_float := IEEE.SF_of_bits 24 128 f.
Definition double_value (d : double) : spec_float := IEEE.SF_of_bits 53 1024 d.
Definition float_signbit (f : float) : bool := IEEE.sign_of_bits 24 128 f.
Definition double_signbit (d : double) : bool := IEEE.sign_of_bits 53 1024 d.

Definition float_of_SF (x : spec_float) : float := IEEE.bits_of_SF 24 128 x.
Definition double_of_SF (x : spec_float) : double := IEEE.bits_of_SF 53 1024 x.

(** Unary minus on a [float] / [double]: the sign bit is inverted. *)
Definition float_neg (f : float) : float := Z.lxor f (Z.shiftl 1 31).
Definition double_neg (d : double) : double := Z.lxor d (Z.shiftl 1 63).

(** The constants that [main] passes to the decoders. *)
Definition lit_5_0f : float := float_of_SF (IEEE.SF_of_decimal 24 128 50 1).
Definition lit_0_1f : float := float_of_SF (IEEE.SF_of_decimal 24 128 1 1).
Definition lit_0_1 : double := double_of_SF (IEEE.SF_of_decimal 53 1024 1 1).
Definition lit_0_0f : float := float_of_SF (IEEE.SF_of_decimal 24 128 0 1).
Definition lit_m0_0f : float := float_neg lit_0_0f.

(** ** Text and number formatting

    Rocq strings have no escape sequences: [C] reads a string the way the
    C compiler reads a literal, turning [\n] into the newline character. *)

Definition newline : ascii := ascii_of_nat 10.

Fixpoint C (s : string) : string :=
  match s with
  | EmptyString => EmptyString
  | String c EmptyString => s
  | String c (String c' rest as tl) =>
      if Ascii.eqb c "\" then
        if Ascii.eqb c' "n" then String newline (C rest)
        else String c' (C rest)
      else String c (C tl)
  end.

(** Digits of [n] in base [base], most significant first. *)
Fixpoint digits_aux (fuel : nat) (base n : Z) (acc : list Z) : list Z :=
  match fuel with
  | O => acc
  | S k =>
      let acc' := (n mod base) :: acc in
      if n / base =? 0 then acc' else digits_aux k base (n / base) acc'
  end.

Definition digits (base n : Z) : list Z :=
  digits_aux (S (Z.to_nat (Z.log2 n))) base n [].

Definition digit_char (d : Z) : ascii :=
  ascii_of_nat (Z.to_nat (if d <? 10 then 48 + d else 55 + d)).

Fixpoint string_of_digits (ds : list Z) : string :=
  match ds with
  | [] => EmptyString
  | d :: r => String (digit_char d) (string_of_digits r)
  end.

Fixpoint replicate (n : nat) (c : ascii) : string :=
  match n with
  | O => EmptyString
  | S k => String c (replicate k c)
  end.

(** Field width: pad on the left with zeros (flag [0]) or blanks. *)
Definition pad (zero : bool) (w : Z) (s : string) : string :=
  String.append
    (replicate (Z.to_nat (w - Z.of_nat (String.length s)))
               (if zero then "0"%char else " "%char))
    s.

Definition lpad (w : Z) (ds : list Z) : list Z :=
  List.repeat 0 (Z.to_nat (w - Z.of_nat (List.length ds))) ++ ds.

Fixpoint drop_zeros (ds : list Z) : list Z :=
  match ds with
  | d :: r => if d =? 0 then drop_zeros r else ds
  | [] => []
  end.

Definition strip_zeros (ds : list Z) : list Z := rev (drop_zeros (rev ds)).

(** *** The [%g] conversion

    The argument is the exact value [m * 2^e]; it is rounded (to nearest,
    ties to even) to [P] significant decimal digits. *)

Definition ratio (m : positive) (e : Z) : Z * Z :=
  if 0 <=? e then (Zpos m * 2 ^ e, 1) else (Zpos m, 2 ^ (- e)).

Definition scale10 (n d k : Z) : Z * Z :=
  if 0 <=? k then (n * 10 ^ k, d) else (n, d * 10 ^ (- k)).

Definition round_div (n d : Z) : Z :=
  let q := n / d in
  match 2 * (n mod d) ?= d with
  | Lt => q
  | Gt => q + 1
  | Eq => if Z.even q then q else q + 1
  end.

Fixpoint first_scale (fuel : nat) (n d k : Z) : Z :=
  match fuel with
  | O => k
  | S f => if d <=? n * 10 ^ k then k else first_scale f n d (k + 1)
  end.

(** [floor (log10 (n / d))] for positive [n] and [d]. *)
Definition floor_log10 (n d : Z) : Z :=
  if d <=? n then Z.of_nat (List.length (digits 10 (n / d))) - 1
  else - first_scale (S (Z.to_nat (Z.log2 d))) n d 1.

(** The [P] significant digits, as one number, and the decimal exponent
    of the first of them. *)
Definition g_digits (P n d : Z) : Z * Z :=
  let X0 := floor_log10 n d in
  let '(n1, d1) := scale10 n d (P - 1 - X0) in
  let D := round_div n1 d1 in
  if 10 ^ P <=? D then (10 ^ (P - 1), X0 + 1) else (D, X0).

Definition fraction_part (ds : list Z) : string :=
  match strip_zeros ds with
  | [] => EmptyString
  | fs => String "." (string_of_digits fs)
  end.

Definition fmt_g_finite (P : Z) (m : positive) (e : Z) : string :=
  let '(n, d) := ratio m e in
  let '(D, X) := g_digits P n d in
  let ds := lpad P (digits 10 D) in
  if (X <? -4) || (P <=? X) then
    String.append (string_of_digits (firstn 1 ds))
      (String.append (fraction_part (skipn 1 ds))
         (String "e" (String (if X <? 0 then "-"%char else "+"%char)
            (string_of_digits (lpad 2 (digits 10 (Z.abs X)))))))
  else if 0 <=? X then
    String.append (string_of_digits (firstn (Z.to_nat (X + 1)) ds))
                  (fraction_part (skipn (Z.to_nat (X + 1)) ds))
  else
    String "0" (fraction_part (List.repeat 0 (Z.to_nat (- X - 1)) ++ ds)).

Definition fmt_g (prec : option Z) (s : bool) (x : spec_float) : string :=
  let P := match prec with
           | None => 6
           | Some p => if p =? 0 then 1 else p
           end in
  String.append (if s then "-" else "")%string
    match x with
    | S754_zero _ => "0"%string
    | S754_infinity _ => "inf"%string
    | S754_nan => "nan"%string
    | S754_finite _ m e => fmt_g_finite P m e
    end.

(** *** [printf]

    The conversions the program uses: [%u] and [%X] of an unsigned
    argument ([ll] selects 64 bits instead of 32), [%g] of a [double];
    an optional [0] flag, field width and precision. *)

Inductive arg : Type :=
| ArgU (n : Z)
| ArgD (s : bool) (x : spec_float).

Record conv : Type := mkConv {
  c_zero : bool;
  c_width : Z;
  c_prec : option Z;
  c_long : nat
}.

Definition conv0 : conv := mkConv false 0 None 0.

Definition wrap_arg (cv : conv) (n : Z) : Z :=
  n mod 2 ^ (if Nat.leb 2 (c_long cv) then 64 else 32).

(** An unsigned argument written in base [base]. *)
Definition fmt_unsigned (base : Z) (cv : conv) (n : Z) : string :=
  pad (c_zero cv) (c_width cv) (string_of_digits (digits base (wrap_arg cv n))).

Definition convert (c : ascii) (cv : conv) (a : arg) : string :=
  match a with
  | ArgU n =>
      if Ascii.eqb c "u" then fmt_unsigned 10 cv n
      else if Ascii.eqb c "X" then fmt_unsigned 16 cv n
      else EmptyString
  | ArgD s x =>
      if Ascii.eqb c "g" then pad false (c_width cv) (fmt_g (c_prec cv) s x)
      else EmptyString
  end.

Definition digit_value (c : ascii) : option Z :=
  let n := Z.of_nat (nat_of_ascii c) in
  if (48 <=? n) && (n <=? 57) then Some (n - 48) else None.

Fixpoint format (fmt : string) (st : option conv) (args : list arg) : string :=
  match fmt with
  | EmptyString => EmptyString
  | String c rest =>
      match st with
      | None =>
          if Ascii.eqb c "%" then format rest (Some conv0) args
          else String c (format rest None args)
      | Some cv =>
          match digit_value c with
          | Some d =>
              match c_prec cv with
              | Some p =>
                  format rest (Some (mkConv (c_zero cv) (c_width cv) (Some (10 * p + d)) (c_long cv))) args
              | None =>
                  if (d =? 0) && (c_width cv =? 0)
                  then format rest (Some (mkConv true 0 None (c_long cv))) args
                  else format rest (Some (mkConv (c_zero cv) (10 * c_width cv + d) None (c_long cv))) args
              end
          | None =>
              if Ascii.eqb c "." then
                format rest (Some (mkConv (c_zero cv) (c_width cv) (Some 0) (c_long cv))) args
              else if Ascii.eqb c "l" then
                format rest (Some (mkConv (c_zero cv) (c_width cv) (c_prec cv) (S (c_long cv)))) args
              else if Ascii.eqb c "%" then String c (format rest None args)
              else
                match args with
                | a :: args' => String.append (convert c cv a) (format rest None args')
                | [] => format rest None args
                end
          end
      end
  end.

(** ** Input and output *)

Record world : Type := mkWorld {
  w_stdin : string;
  w_stdout : string
}.

Definition IO (A : Type) : Type := world -> A * world.

Definition ret {A : Type} (a : A) : IO A := fun w => (a, w).

Definition bind {A B : Type} (m : IO A) (k : A -> IO B) : IO B :=
  fun w => let (a, w') := m w in k a w'.

Notation "m ;; k" := (bind m (fun _ => k)) (at level 61, right associativity).

Definition write (s : string) : IO unit :=
  fun w => (tt, mkWorld (w_stdin w) (String.append (w_stdout w) s)).

Definition putchar (c : ascii) : IO unit := write (String c EmptyString).

Definition puts (s : string) : IO unit :=
  write (String.append s (String newline EmptyString)).

Definition printf (fmt : string) (args : list arg) : IO unit :=
  write (format (C fmt) None args).

Definition when (b : bool) (m : IO unit) : IO unit := if b then m else ret tt.

(** [for (int i = start; i >= 0; --i) body(i)] *)
Fixpoint for_down_aux (n : nat) (i : Z) (body : Z -> IO unit) : IO unit :=
  match n with
  | O => ret tt
  | S k => body i ;; for_down_aux k (i - 1) body
  end.

Definition for_down (start : Z) (body : Z -> IO unit) : IO unit :=
  for_down_aux (Z.to_nat (start + 1)) start body.

(** ** The program *)

Definition print_bits_u32 (x : uint32_t) : IO unit :=
  for_down 31 (fun i =>
    putchar (if negb (Z.land (Z.shiftr x i) 1 =? 0) then "1" else "0") ;;
    when ((i =? 31) || (i =? 23)) (putchar " ")).

Definition print_bits_u64 (x : uint64_t) : IO unit :=
  for_down 63 (fun i =>
    putchar (if negb (Z.land (Z.shiftr x i) 1 =? 0) then "1" else "0") ;;
    when ((i =? 63) || (i =? 52)) (putchar " ")).

(** A [float] argument of [printf] is promoted to [double], which keeps
    its value. *)
Definition promote (f : float) : arg := ArgD (float_signbit f) (float_value f).
Definition arg_double (d : double) : arg := ArgD (double_signbit d) (double_value d).

(** The cast [(unsigned long long)x]. *)
Definition ull (x : Z) : Z := x mod 2 ^ 64.

Definition decode_float (f : float) : IO unit :=
  let '(mkFloatBits _ u sign exp frac) := float_bits f in
  printf "float = %.9g\n" [promote f] ;;
  printf "bits  = " [] ;;
  print_bits_u32 u ;;
  putchar newline ;;
  printf "sign  = %u\n" [ArgU sign] ;;
  printf "exp   = 0x%02X (%u)\n" [ArgU exp; ArgU exp] ;;
  printf "frac  = 0x%06X (%u)\n" [ArgU frac; ArgU frac].

Definition decode_double (d : double) : IO unit :=
  let '(mkFloatBits _ u sign exp frac) := double_bits d in
  printf "double = %.17g\n" [arg_double d] ;;
  printf "bits   = " [] ;;
  print_bits_u64 u ;;
  putchar newline ;;
  printf "sign   = %llu\n" [ArgU (ull sign)] ;;
  printf "exp    = 0x%03llX (%llu)\n" [ArgU (ull exp); ArgU (ull exp)] ;;
  printf "frac   = 0x%013llX\n" [ArgU (ull frac)].

Definition main : IO Z :=
  decode_float lit_5_0f ;;
  puts "----" ;;
  decode_float lit_0_1f ;;
  puts "----" ;;
  decode_double lit_0_1 ;;
  puts "----" ;;
  decode_float lit_m0_0f ;;
  ret 0.

(** The text a computation appends to an empty standard output. *)
Definition output_of {A : Type} (m : IO A) : string :=
  w_stdout (snd (m (mkWorld EmptyString EmptyString))).

Definition result_of {A : Type} (m : IO A) : A :=
  fst (m (mkWorld EmptyString EmptyString)).

(** [m] returns [a] after appending [s] to standard output, whatever the
    state of the world; standard input is left untouched. *)
Definition emits {A : Type} (m : IO A) (a : A) (s : string) : Prop :=
  forall w, m w = (a, mkWorld (w_stdin w) (String.append (w_stdout w) s)).

Definition behaves {A : Type} (m : IO A) : Prop :=
  exists a s, emits m a s.

(** ** Properties of a decoded value *)

(** The bits [hi .. lo] of [u], read as a number. *)
Definition bit_range (u hi lo : Z) : Z := (u / 2 ^ lo) mod 2 ^ (hi - lo + 1).

(** The fields as they sit in the raw pattern. *)
Definition sign_in_place (b : FloatBits) : Z := Z.shiftl (sign b) (width b - 1).
Definition exponent_in_place (b : FloatBits) : Z :=
  Z.shiftl (exponent b) (fraction_width (width b)).

Definition disjoint_fields (b : FloatBits) : Prop :=
  Z.land (sign_in_place b) (exponent_in_place b) = 0 /\
  Z.land (sign_in_place b) (fraction b) = 0 /\
  Z.land (exponent_in_place b) (fraction b) = 0.

(** [x] has no bit set outside the positions [lo .. hi]. *)
Definition confined (x lo hi : Z) : Prop :=
  forall i, Z.testbit x i = true -> lo <= i <= hi.

(** Each field, in place, stays within its own bit range: the top bit for
    the sign, the [exponent_width] bits below it for the exponent, the
    low [fraction_width] bits for the fraction. *)
Definition fields_in_ranges (b : FloatBits) : Prop :=
  confined (sign_in_place b) (width b - 1) (width b - 1) /\
  confined (exponent_in_place b) (fraction_width (width b)) (width b - 2) /\
  confined (fraction b) 0 (fraction_width (width b) - 1).

Definition fields_in_bounds (b : FloatBits) : Prop :=
  (sign b = 0 \/ sign b = 1) /\
  0 <= exponent b < 2 ^ exponent_width (width b) /\
  0 <= fraction b < 2 ^ fraction_width (width b).

Definition pattern_of_fields (w s e m : Z) : Z :=
  s * 2 ^ (w - 1) + e * 2 ^ fraction_width w + m.

(** ** The classification table of the documentation

    The program has no code for it; the table is the one of the README
    ("Special values"), over the biased exponent and the fraction. *)

Inductive fp_class : Type :=
| SignedZero
| Subnormal
| Normal
| SignedInfinity
| NaN.

Definition E_max (w : Z) : Z := if w =? 32 then 255 else 2047.

Definition row (c : fp_class) (emax e m : Z) : Prop :=
  match c with
  | SignedZero => e = 0 /\ m = 0
  | Subnormal => e = 0 /\ m <> 0
  | Normal => 0 < e < emax
  | SignedInfinity => e = emax /\ m = 0
  | NaN => e = emax /\ m <> 0
  end.

Definition class_of (b : FloatBits) (c : fp_class) : Prop :=
  row c (E_max (width b)) (exponent b) (fraction b).

Definition finite_nonzero (x : spec_float) : Prop :=
  match x with
  | S754_finite _ _ _ => True
  | _ => False
  end.

(** The number written by a list of digits, and by a string of decimal
    or upper-case hexadecimal digit characters. *)
Definition undigits (base : Z) (ds : list Z) : Z :=
  fold_left (fun acc d => acc * base + d) ds 0.

Definition char_digit (c : ascii) : Z :=
  let n := Z.of_nat (nat_of_ascii c) in
  if n <? 58 then n - 48 else n - 55.

Fixpoint digits_of_string (s : string) : list Z :=
  match s with
  | EmptyString => []
  | String c r => char_digit c :: digits_of_string r
  end.

Definition read_number (base : Z) (s : string) : Z :=
  undigits base (digits_of_string s).

(** The lines that report the exponent and the fraction. *)
Definition exp_line_float (b : FloatBits) : string :=
  String.append (C "exp   = 0x")
    (String.append (fmt_unsigned 16 (mkConv true 2 None 0) (exponent b))
       (String.append (C " (")
          (String.append (fmt_unsigned 10 conv0 (exponent b)) (C ")\n")))).

Definition frac_line_float (b : FloatBits) : string :=
  String.append (C "frac  = 0x")
    (String.append (fmt_unsigned 16 (mkConv true 6 None 0) (fraction b))
       (String.append (C " (")
          (String.append (fmt_unsigned 10 conv0 (fraction b)) (C ")\n")))).

Definition exp_line_double (b : FloatBits) : string :=
  String.append (C "exp    = 0x")
    (String.append (fmt_unsigned 16 (mkConv true 3 None 2) (ull (exponent b)))
       (String.append (C " (")
          (String.append (fmt_unsigned 10 (mkConv false 0 None 2) (ull (exponent b)))
             (C ")\n")))).

Definition frac_line_double (b : FloatBits) : string :=
  String.append (C "frac   = 0x")
    (String.append (fmt_unsigned 16 (mkConv true 13 None 2) (ull (fraction b)))
       (C "\n")).

(** ** The text of a run

    What the four calls of [main] print, as the C literals one would
    compare the output with. *)

Definition report_5_0f : string :=
  C "float = 5\nbits  = 0 10000001 01000000000000000000000\nsign  = 0\nexp   = 0x81 (129)\nfrac  = 0x200000 (2097152)\n".

Definition report_0_1f : string :=
  C "float = 0.100000001\nbits  = 0 01111011 10011001100110011001101\nsign  = 0\nexp   = 0x7B (123)\nfrac  = 0x4CCCCD (5033165)\n".

Definition report_0_1 : string :=
  C "double = 0.10000000000000001\nbits   = 0 01111111011 1001100110011001100110011001100110011001100110011010\nsign   = 0\nexp    = 0x3FB (1019)\nfrac   = 0x999999999999A\n".

Definition report_m0_0f : string :=
  C "float = -0\nbits  = 1 00000000 00000000000000000000000\nsign  = 1\nexp   = 0x00 (0)\nfrac  = 0x000000 (0)\n".

Definition separator : string := C "----\n".

Definition run_output : string :=
  String.append report_5_0f
    (String.append separator
       (String.append report_0_1f
          (String.append separator
             (String.append report_0_1
                (String.append separator report_m0_0f))))).

(** ** The binary rendering of a pattern

    [binary_from w lo x] writes the [w] bits of [x] from bit [lo + w - 1]
    down to bit [lo], most significant first. *)

Definition bit_char (b : bool) : ascii := if b then "1"%char else "0"%char.

Fixpoint binary_from (w : nat) (lo x : Z) : string :=
  match w with
  | O => EmptyString
  | S k => String (bit_char (Z.testbit x (lo + Z.of_nat k))) (binary_from k lo x)
  end.

Definition binary (w : nat) (x : Z) : string := binary_from w 0 x.

Fixpoint remove_blanks (s : string) : string :=
  match s with
  | EmptyString => EmptyString
  | String c r => if Ascii.eqb c " " then remove_blanks r else String c (remove_blanks r)
  end.

(** The text of [n] rounds of the loop of [print_bits_u32] and
    [print_bits_u64], begun at index [i], with a blank after the indices
    selected by [sep]. *)
Fixpoint bits_text (n : nat) (i : Z) (x : Z) (sep : Z -> bool) : string :=
  match n with
  | O => EmptyString
  | S k =>
      String (bit_char (Z.testbit x i))
        (if sep i then String " " (bits_text k (i - 1) x sep)
         else bits_text k (i - 1) x sep)
  end.

(** The five lines of a report, from the decoded record. *)
Definition value_line_float (f : float) : string :=
  String.append (C "float = ")
    (String.append (fmt_g (Some 9) (float_signbit f) (float_value f)) (C "\n")).

Definition value_line_double (d : double) : string :=
  String.append (C "double = ")
    (String.append (fmt_g (Some 17) (double_signbit d) (double_value d)) (C "\n")).

Definition bits_line_float (b : FloatBits) : string :=
  String.append (C "bits  = ")
    (String.append (binary 1 (sign b))
       (String " " (String.append (binary 8 (exponent b))
          (String " " (String.append (binary 23 (fraction b)) (C "\n")))))).

Definition bits_line_double (b : FloatBits) : string :=
  String.append (C "bits   = ")
    (String.append (binary 1 (sign b))
       (String " " (String.append (binary 11 (exponent b))
          (String " " (String.append (binary 52 (fraction b)) (C "\n")))))).

Definition sign_line_float (b : FloatBits) : string :=
  String.append (C "sign  = ") (String (digit_char (sign b)) (C "\n")).

Definition sign_line_double (b : FloatBits) : string :=
  String.append (C "sign   = ") (String (digit_char (sign b)) (C "\n")).


(** * Proofs *)

(** ** Bit-level facts, for any layout of [mw] fraction bits, [ew]
    exponent bits and one sign bit *)

Lemma land_ones_bounds (x n : Z) : 0 <= n -> 0 <= Z.land x (Z.ones n) < 2 ^ n.
Proof.
  intros Hn. rewrite Z.land_ones by assumption.
  apply Z.mod_pos_bound. apply Z.pow_pos_nonneg; lia.
Qed.

Lemma land_ones_small (x n : Z) : 0 <= x < 2 ^ n -> Z.land x (Z.ones n) = x.
Proof.
  intros Hx. assert (0 <= n).
  { destruct (Z.lt_ge_cases n 0) as [Hn|Hn]; [|assumption].
    rewrite Z.pow_neg_r in Hx by assumption. lia. }
  rewrite Z.land_ones by assumption. apply Z.mod_small; assumption.
Qed.

Lemma testbit_high (u n i : Z) : 0 <= u < 2 ^ n -> n <= i -> Z.testbit u i = false.
Proof.
  intros Hu Hi.
  destruct (Z.eq_dec u 0) as [->|Hne]; [apply Z.bits_0|].
  apply Z.bits_above_log2; [lia|].
  assert (Z.log2 u < n); [|lia].
  apply Z.log2_lt_pow2; lia.
Qed.

Ltac tb_step :=
  match goal with
  | |- context [Z.testbit (Z.lor _ _) _] => rewrite Z.lor_spec
  | |- context [Z.testbit (Z.land _ _) _] => rewrite Z.land_spec
  | |- context [Z.testbit (Z.lxor _ _) _] => rewrite Z.lxor_spec
  | |- context [Z.testbit ?a ?n] => rewrite (Z.testbit_neg_r a n) by lia
  | |- context [Z.testbit (Z.shiftl ?a ?n) ?m] => rewrite (Z.shiftl_spec a n m) by lia
  | |- context [Z.testbit (Z.shiftr ?a ?n) ?m] => rewrite (Z.shiftr_spec a n m) by lia
  | |- context [Z.testbit (Z.ones ?n) ?m] => rewrite (Z.testbit_ones_nonneg n m) by lia
  | |- context [?a <? ?b] => rewrite (proj2 (Z.ltb_lt a b)) by lia
  | |- context [?a <? ?b] => rewrite (proj2 (Z.ltb_ge a b)) by lia
  end.

Ltac testbits :=
  repeat tb_step; cbn [andb orb];
  rewrite ?andb_true_r, ?andb_false_r, ?orb_false_r, ?orb_true_r;
  try reflexivity; try (f_equal; lia).

Section Layout.
Variables mw ew : Z.
Hypothesis Hmw : 0 < mw.
Hypothesis Hew : 0 < ew.
#[local] Set Default Proof Using "Hmw Hew".

Lemma layout_join (u : Z) :
  0 <= u < 2 ^ (mw + ew + 1) ->
  Z.lor (Z.lor (Z.shiftl (Z.land (Z.shiftr u (mw + ew)) (Z.ones 1)) (mw + ew)) (Z.shiftl (Z.land (Z.shiftr u mw) (Z.ones ew)) mw)) (Z.land u (Z.ones mw)) = u.
Proof.
  intros Hu.
  apply Z.bits_inj'. intros i Hi.
  destruct (Z.lt_ge_cases i mw) as [H1|H1]; [testbits|].
  destruct (Z.lt_ge_cases i (mw + ew)) as [H2|H2]; [testbits|].
  destruct (Z.eq_dec i (mw + ew)) as [H3|H3]; [testbits|].
  testbits. symmetry. apply (testbit_high u (mw + ew + 1)); [assumption|lia].
Qed.

Lemma layout_sign_exp_disjoint (u : Z) :
  Z.land (Z.shiftl (Z.land (Z.shiftr u (mw + ew)) (Z.ones 1)) (mw + ew)) (Z.shiftl (Z.land (Z.shiftr u mw) (Z.ones ew)) mw) = 0.
Proof.
  apply Z.bits_inj'. intros i Hi. rewrite Z.bits_0.
  destruct (Z.lt_ge_cases i (mw + ew)) as [H|H]; testbits.
Qed.

Lemma layout_sign_frac_disjoint (u : Z) :
  Z.land (Z.shiftl (Z.land (Z.shiftr u (mw + ew)) (Z.ones 1)) (mw + ew)) (Z.land u (Z.ones mw)) = 0.
Proof.
  apply Z.bits_inj'. intros i Hi. rewrite Z.bits_0.
  destruct (Z.lt_ge_cases i (mw + ew)) as [H|H]; testbits.
Qed.

Lemma layout_exp_frac_disjoint (u : Z) :
  Z.land (Z.shiftl (Z.land (Z.shiftr u mw) (Z.ones ew)) mw) (Z.land u (Z.ones mw)) = 0.
Proof.
  apply Z.bits_inj'. intros i Hi. rewrite Z.bits_0.
  destruct (Z.lt_ge_cases i mw) as [H|H]; testbits.
Qed.

End Layout.

(** ** The two formats *)

Lemma memcpy_bounds (n x : Z) : 0 <= n -> 0 <= memcpy n x < 2 ^ (8 * n).
Proof. intros Hn. apply land_ones_bounds. lia. Qed.

Lemma float_to_u32_range (f : float) : is_u32 (float_to_u32 f).
Proof. exact (memcpy_bounds 4 f ltac:(lia)). Qed.

Lemma double_to_u64_range (d : double) : is_u64 (double_to_u64 d).
Proof. exact (memcpy_bounds 8 d ltac:(lia)). Qed.

Lemma float_to_u32_id (f : float) : is_float f -> float_to_u32 f = f.
Proof. intros Hf. apply (land_ones_small f 32). exact Hf. Qed.

Lemma double_to_u64_id (d : double) : is_double d -> double_to_u64 d = d.
Proof. intros Hd. apply (land_ones_small d 64). exact Hd. Qed.

Lemma float_join (f : float) : join_fields (float_bits f) = raw (float_bits f).
Proof.
  exact (layout_join 23 8 eq_refl eq_refl (float_to_u32 f) (float_to_u32_range f)).
Qed.

Lemma double_join (d : double) : join_fields (double_bits d) = raw (double_bits d).
Proof.
  exact (layout_join 52 11 eq_refl eq_refl (double_to_u64 d) (double_to_u64_range d)).
Qed.

Lemma float_disjoint (f : float) : disjoint_fields (float_bits f).
Proof.
  split; [|split].
  - exact (layout_sign_exp_disjoint 23 8 eq_refl eq_refl (float_to_u32 f)).
  - exact (layout_sign_frac_disjoint 23 8 eq_refl eq_refl (float_to_u32 f)).
  - exact (layout_exp_frac_disjoint 23 8 eq_refl eq_refl (float_to_u32 f)).
Qed.

Lemma double_disjoint (d : double) : disjoint_fields (double_bits d).
Proof.
  split; [|split].
  - exact (layout_sign_exp_disjoint 52 11 eq_refl eq_refl (double_to_u64 d)).
  - exact (layout_sign_frac_disjoint 52 11 eq_refl eq_refl (double_to_u64 d)).
  - exact (layout_exp_frac_disjoint 52 11 eq_refl eq_refl (double_to_u64 d)).
Qed.

Lemma sign_cases (x : Z) : Z.land x 1 = 0 \/ Z.land x 1 = 1.
Proof.
  pose proof (land_ones_bounds x 1 ltac:(lia)) as H.
  change (Z.ones 1) with 1 in H. lia.
Qed.

Lemma float_fields_in_bounds (f : float) : fields_in_bounds (float_bits f).
Proof.
  repeat split; try apply sign_cases;
    first [ apply (land_ones_bounds (Z.shiftr (float_to_u32 f) 23) 8); lia
          | apply (land_ones_bounds (float_to_u32 f) 23); lia ].
Qed.

Lemma double_fields_in_bounds (d : double) : fields_in_bounds (double_bits d).
Proof.
  repeat split; try apply sign_cases;
    first [ apply (land_ones_bounds (Z.shiftr (double_to_u64 d) 52) 11); lia
          | apply (land_ones_bounds (double_to_u64 d) 52); lia ].
Qed.

Lemma testbit_true_nonneg (x i : Z) : Z.testbit x i = true -> 0 <= i.
Proof.
  intros H. destruct (Z.lt_ge_cases i 0) as [Hneg|]; [|assumption].
  rewrite Z.testbit_neg_r in H by assumption. discriminate.
Qed.

Lemma field_confined (u lo n : Z) :
  0 <= lo -> 0 <= n ->
  confined (Z.shiftl (Z.land (Z.shiftr u lo) (Z.ones n)) lo) lo (lo + n - 1).
Proof.
  intros Hlo Hn i Hi. pose proof (testbit_true_nonneg _ _ Hi) as Hi0.
  rewrite Z.shiftl_spec in Hi by assumption.
  pose proof (testbit_true_nonneg _ _ Hi) as Hi1.
  rewrite Z.land_spec, Z.testbit_ones_nonneg in Hi by lia.
  apply andb_true_iff in Hi. destruct Hi as [_ Hlt].
  apply Z.ltb_lt in Hlt. lia.
Qed.

Lemma low_confined (u n : Z) :
  0 <= n -> confined (Z.land u (Z.ones n)) 0 (n - 1).
Proof.
  intros Hn i Hi. pose proof (testbit_true_nonneg _ _ Hi) as Hi0.
  rewrite Z.land_spec, Z.testbit_ones_nonneg in Hi by lia.
  apply andb_true_iff in Hi. destruct Hi as [_ Hlt].
  apply Z.ltb_lt in Hlt. lia.
Qed.

(** A field put back in place is the raw word under the mask of its
    range. *)
Lemma field_in_place_mask (u lo n : Z) :
  0 <= lo -> 0 <= n ->
  Z.shiftl (Z.land (Z.shiftr u lo) (Z.ones n)) lo = Z.land u (Z.shiftl (Z.ones n) lo).
Proof.
  intros Hlo Hn. apply Z.bits_inj'. intros i Hi.
  rewrite Z.land_spec, !Z.shiftl_spec by assumption.
  destruct (Z.lt_ge_cases i lo) as [Hlt|Hge].
  - rewrite !(Z.testbit_neg_r _ (i - lo)) by lia. now rewrite andb_false_r.
  - rewrite Z.land_spec, Z.shiftr_spec by lia.
    replace (i - lo + lo) with i by lia. reflexivity.
Qed.

Lemma float_in_ranges (f : float) : fields_in_ranges (float_bits f).
Proof.
  split; [|split].
  - exact (field_confined (float_to_u32 f) 31 1 ltac:(lia) ltac:(lia)).
  - exact (field_confined (float_to_u32 f) 23 8 ltac:(lia) ltac:(lia)).
  - exact (low_confined (float_to_u32 f) 23 ltac:(lia)).
Qed.

Lemma double_in_ranges (d : double) : fields_in_ranges (double_bits d).
Proof.
  split; [|split].
  - exact (field_confined (double_to_u64 d) 63 1 ltac:(lia) ltac:(lia)).
  - exact (field_confined (double_to_u64 d) 52 11 ltac:(lia) ltac:(lia)).
  - exact (low_confined (double_to_u64 d) 52 ltac:(lia)).
Qed.

Lemma float_in_place_masks (f : float) :
  sign_in_place (float_bits f) = Z.land (raw (float_bits f)) 0x80000000 /\
  exponent_in_place (float_bits f) = Z.land (raw (float_bits f)) 0x7F800000 /\
  fraction (float_bits f) = Z.land (raw (float_bits f)) 0x007FFFFF.
Proof.
  split; [|split].
  - exact (field_in_place_mask (float_to_u32 f) 31 1 ltac:(lia) ltac:(lia)).
  - exact (field_in_place_mask (float_to_u32 f) 23 8 ltac:(lia) ltac:(lia)).
  - reflexivity.
Qed.

Lemma double_in_place_masks (d : double) :
  sign_in_place (double_bits d) = Z.land (raw (double_bits d)) 0x8000000000000000 /\
  exponent_in_place (double_bits d) = Z.land (raw (double_bits d)) 0x7FF0000000000000 /\
  fraction (double_bits d) = Z.land (raw (double_bits d)) 0x000FFFFFFFFFFFFF.
Proof.
  split; [|split].
  - exact (field_in_place_mask (double_to_u64 d) 63 1 ltac:(lia) ltac:(lia)).
  - exact (field_in_place_mask (double_to_u64 d) 52 11 ltac:(lia) ltac:(lia)).
  - reflexivity.
Qed.

(** C1. For every value of either width the three decoded fields occupy
    disjoint bit ranges and reassemble to the raw pattern, which is the
    value's storage read as an unsigned integer:
    [(sign << (width-1)) | (exponent << fraction_width) | fraction = raw],
    with [fraction_width] 23 for the 32-bit and 52 for the 64-bit format.
    Each field is confined to its own range -- the sign to the top bit,
    the exponent to the 8 (resp. 11) bits below it, the fraction to the
    low 23 (resp. 52) bits -- where it is the raw pattern under the mask
    of that range; so no two fields share a bit and none is out of
    bounds. *)
Theorem decode_roundtrip (f : float) (d : double)
    (Hf : is_float f) (Hd : is_double d) :
  (join_fields (float_bits f) = f /\ raw (float_bits f) = f /\
   fraction_width (width (float_bits f)) = 23 /\ disjoint_fields (float_bits f) /\
   fields_in_ranges (float_bits f) /\ fields_in_bounds (float_bits f) /\
   sign_in_place (float_bits f) = Z.land f 0x80000000 /\
   exponent_in_place (float_bits f) = Z.land f 0x7F800000 /\
   fraction (float_bits f) = Z.land f 0x007FFFFF) /\
  (join_fields (double_bits d) = d /\ raw (double_bits d) = d /\
   fraction_width (width (double_bits d)) = 52 /\ disjoint_fields (double_bits d) /\
   fields_in_ranges (double_bits d) /\ fields_in_bounds (double_bits d) /\
   sign_in_place (double_bits d) = Z.land d 0x8000000000000000 /\
   exponent_in_place (double_bits d) = Z.land d 0x7FF0000000000000 /\
   fraction (double_bits d) = Z.land d 0x000FFFFFFFFFFFFF).
Proof.
  assert (Hraw32 : raw (float_bits f) = f) by exact (float_to_u32_id f Hf).
  assert (Hraw64 : raw (double_bits d) = d) by exact (double_to_u64_id d Hd).
  split.
  - destruct (float_in_place_masks f) as (Ms & Me & Mm).
    rewrite Hraw32 in Ms, Me, Mm.
    split; [rewrite float_join; exact Hraw32|].
    split; [exact Hraw32|]. split; [reflexivity|].
    split; [apply float_disjoint|]. split; [apply float_in_ranges|].
    split; [apply float_fields_in_bounds|].
    split; [exact Ms|]. split; [exact Me | exact Mm].
  - destruct (double_in_place_masks d) as (Ms & Me & Mm).
    rewrite Hraw64 in Ms, Me, Mm.
    split; [rewrite double_join; exact Hraw64|].
    split; [exact Hraw64|]. split; [reflexivity|].
    split; [apply double_disjoint|]. split; [apply double_in_ranges|].
    split; [apply double_fields_in_bounds|].
    split; [exact Ms|]. split; [exact Me | exact Mm].
Qed.

Lemma decode_roundtrip_witness :
  join_fields (float_bits 0x3DCCCCCD) = 0x3DCCCCCD /\
  join_fields (double_bits 0xFFF8000000000001) = 0xFFF8000000000001.
Proof.
  destruct (decode_roundtrip 0x3DCCCCCD 0xFFF8000000000001) as [[H1 _] [H2 _]].
  - unfold is_float. lia.
  - unfold is_double. lia.
  - split; [exact H1 | exact H2].
Defined.

Lemma land_shiftr_bit_range (u lo n : Z) :
  0 <= lo -> 0 < n ->
  Z.land (Z.shiftr u lo) (Z.ones n) = bit_range u (lo + n - 1) lo.
Proof.
  intros Hlo Hn. unfold bit_range.
  rewrite Z.land_ones, Z.shiftr_div_pow2 by lia.
  replace (lo + n - 1 - lo + 1) with n by lia. reflexivity.
Qed.

Lemma land_ones_bit_range (u n : Z) :
  0 < n -> Z.land u (Z.ones n) = bit_range u (n - 1) 0.
Proof.
  intros Hn. rewrite <- (Z.shiftr_0_r u) at 1.
  rewrite land_shiftr_bit_range by lia. reflexivity.
Qed.

Lemma bit_range_single (u i : Z) :
  0 <= i -> bit_range u i i = Z.b2z (Z.testbit u i).
Proof.
  intros Hi. unfold bit_range. rewrite Z.testbit_spec' by assumption.
  replace (i - i + 1) with 1 by lia. reflexivity.
Qed.

(** C2. The fields are cut out with the fixed shift and mask constants of
    each width: for a 32-bit pattern the sign is bit 31, the exponent is
    [(u >> 23) & 0xFF] (bits 30-23) and the fraction is [u & 0x7FFFFF]
    (bits 22-0); for a 64-bit pattern the sign is bit 63, the exponent is
    [(u >> 52) & 0x7FF] (bits 62-52) and the fraction is
    [u & 0xFFFFFFFFFFFFF] (bits 51-0). *)
Theorem decode_field_positions (f : float) (d : double)
    (Hf : is_float f) (Hd : is_double d) :
  (sign (float_bits f) = Z.b2z (Z.testbit f 31) /\
   exponent (float_bits f) = Z.land (Z.shiftr f 23) 0xFF /\
   exponent (float_bits f) = bit_range f 30 23 /\
   fraction (float_bits f) = Z.land f 0x7FFFFF /\
   fraction (float_bits f) = bit_range f 22 0) /\
  (sign (double_bits d) = Z.b2z (Z.testbit d 63) /\
   exponent (double_bits d) = Z.land (Z.shiftr d 52) 0x7FF /\
   exponent (double_bits d) = bit_range d 62 52 /\
   fraction (double_bits d) = Z.land d 0xFFFFFFFFFFFFF /\
   fraction (double_bits d) = bit_range d 51 0).
Proof.
  split.
  - unfold float_bits. cbn [sign exponent fraction].
    rewrite (float_to_u32_id f Hf).
    repeat split.
    + rewrite <- bit_range_single by lia.
      exact (land_shiftr_bit_range f 31 1 ltac:(lia) ltac:(lia)).
    + exact (land_shiftr_bit_range f 23 8 ltac:(lia) ltac:(lia)).
    + exact (land_ones_bit_range f 23 ltac:(lia)).
  - unfold double_bits. cbn [sign exponent fraction].
    rewrite (double_to_u64_id d Hd).
    repeat split.
    + rewrite <- bit_range_single by lia.
      exact (land_shiftr_bit_range d 63 1 ltac:(lia) ltac:(lia)).
    + exact (land_shiftr_bit_range d 52 11 ltac:(lia) ltac:(lia)).
    + exact (land_ones_bit_range d 52 ltac:(lia)).
Qed.

Lemma decode_field_positions_witness :
  exponent (float_bits 0xC0490FDB) = bit_range 0xC0490FDB 30 23 /\
  exponent (double_bits 0x400921FB54442D18) = bit_range 0x400921FB54442D18 62 52.
Proof.
  destruct (decode_field_positions 0xC0490FDB 0x400921FB54442D18)
    as [(_ & _ & H1 & _) (_ & _ & H2 & _)].
  - unfold is_float. lia.
  - unfold is_double. lia.
  - split; [exact H1 | exact H2].
Defined.

(** C3. Whatever the input, the decoded sign is 0 or 1, the exponent is
    below [2^8] (32-bit) or [2^11] (64-bit) and the fraction is below
    [2^23] (32-bit) or [2^52] (64-bit); and no narrower bound would do,
    since the all-ones pattern fills both fields. *)
Theorem decode_fields_bounded (f : float) (d : double) :
  ((sign (float_bits f) = 0 \/ sign (float_bits f) = 1) /\
   0 <= exponent (float_bits f) < 2 ^ 8 /\
   0 <= fraction (float_bits f) < 2 ^ 23) /\
  ((sign (double_bits d) = 0 \/ sign (double_bits d) = 1) /\
   0 <= exponent (double_bits d) < 2 ^ 11 /\
   0 <= fraction (double_bits d) < 2 ^ 52) /\
  (exponent (float_bits (2 ^ 32 - 1)) = 2 ^ 8 - 1 /\
   fraction (float_bits (2 ^ 32 - 1)) = 2 ^ 23 - 1 /\
   exponent (double_bits (2 ^ 64 - 1)) = 2 ^ 11 - 1 /\
   fraction (double_bits (2 ^ 64 - 1)) = 2 ^ 52 - 1).
Proof.
  split; [exact (float_fields_in_bounds f)|].
  split; [exact (double_fields_in_bounds d)|].
  repeat split.
Qed.

(** ** Output of the printing code *)

Lemma append_nil_r (s : string) : String.append s EmptyString = s.
Proof. induction s as [|c s IH]; cbn; [reflexivity | now rewrite IH]. Qed.

Lemma append_assoc (s t u : string) :
  String.append (String.append s t) u = String.append s (String.append t u).
Proof. induction s as [|c s IH]; cbn; [reflexivity | now rewrite IH]. Qed.

Lemma emits_ret {A : Type} (a : A) : emits (ret a) a EmptyString.
Proof. intros [i o]. unfold ret. cbn. now rewrite append_nil_r. Qed.

Lemma emits_write (s : string) : emits (write s) tt s.
Proof. intros w. reflexivity. Qed.

Lemma emits_bind {A B : Type} (m : IO A) (k : A -> IO B) a b s t :
  emits m a s -> emits (k a) b t -> emits (bind m k) b (String.append s t).
Proof.
  intros Hm Hk w. unfold bind. rewrite Hm, Hk. cbn. now rewrite append_assoc.
Qed.

Lemma emits_output {A : Type} (m : IO A) a s :
  emits m a s -> result_of m = a /\ output_of m = s.
Proof.
  intros H. unfold result_of, output_of. rewrite H. cbn. split; reflexivity.
Qed.

Lemma behaves_emits {A : Type} (m : IO A) :
  behaves m -> emits m (result_of m) (output_of m).
Proof.
  intros (a & s & H). destruct (emits_output m a s H) as [-> ->]. exact H.
Qed.

Lemma behaves_ret {A : Type} (a : A) : behaves (ret a).
Proof. exists a, EmptyString. apply emits_ret. Qed.

Lemma behaves_write (s : string) : behaves (write s).
Proof. exists tt, s. apply emits_write. Qed.

Lemma behaves_bind {A B : Type} (m : IO A) (k : A -> IO B) :
  behaves m -> (forall a, behaves (k a)) -> behaves (bind m k).
Proof.
  intros (a & s & Hm) Hk. destruct (Hk a) as (b & t & Hb).
  exists b, (String.append s t). now apply emits_bind with (a := a).
Qed.

Lemma behaves_when (b : bool) (m : IO unit) : behaves m -> behaves (when b m).
Proof. destruct b; intros H; [exact H | apply behaves_ret]. Qed.

Lemma behaves_for_down_aux (n : nat) (i : Z) (body : Z -> IO unit) :
  (forall j, behaves (body j)) -> behaves (for_down_aux n i body).
Proof.
  intros Hbody. revert i.
  induction n as [|n IH]; intros i; cbn [for_down_aux].
  - apply behaves_ret.
  - apply behaves_bind; [apply Hbody | intros _; apply IH].
Qed.

Ltac io_step :=
  lazymatch goal with
  | |- behaves (bind _ _) => apply behaves_bind; [|intros ?]
  | |- behaves (for_down_aux _ _ _) => apply behaves_for_down_aux; intros ?
  | |- behaves (for_down _ _) => unfold for_down
  | |- behaves (when _ _) => apply behaves_when
  | |- behaves (write _) => apply behaves_write
  | |- behaves (putchar _) => apply behaves_write
  | |- behaves (puts _) => apply behaves_write
  | |- behaves (printf _ _) => apply behaves_write
  | |- behaves (ret _) => apply behaves_ret
  end.

Lemma behaves_print_bits_u32 (x : uint32_t) : behaves (print_bits_u32 x).
Proof. unfold print_bits_u32. repeat io_step. Qed.

Lemma behaves_print_bits_u64 (x : uint64_t) : behaves (print_bits_u64 x).
Proof. unfold print_bits_u64. repeat io_step. Qed.

Lemma behaves_decode_float (f : float) : behaves (decode_float f).
Proof.
  unfold decode_float, float_bits.
  repeat first [ io_step | apply behaves_print_bits_u32 ].
Qed.

Lemma behaves_decode_double (d : double) : behaves (decode_double d).
Proof.
  unfold decode_double, double_bits.
  repeat first [ io_step | apply behaves_print_bits_u64 ].
Qed.

Lemma behaves_main : behaves main.
Proof.
  unfold main.
  repeat lazymatch goal with
         | |- behaves (decode_float _) => apply behaves_decode_float
         | |- behaves (decode_double _) => apply behaves_decode_double
         | _ => io_step
         end.
Qed.

(** ** Arithmetic reading of the fields *)

Lemma float_bits_arith (f : float) :
  is_float f ->
  float_bits f = mkFloatBits 32 f (f / 2 ^ 31) ((f / 2 ^ 23) mod 2 ^ 8) (f mod 2 ^ 23).
Proof.
  intros Hf. unfold float_bits. cbv zeta. rewrite (float_to_u32_id f Hf).
  f_equal.
  - change (Z.land (Z.shiftr f 31) (Z.ones 1) = f / 2 ^ 31).
    rewrite Z.land_ones, Z.shiftr_div_pow2 by lia.
    apply Z.mod_small. unfold is_float in Hf.
    change (2 ^ 1) with 2. change (2 ^ 31) with 2147483648.
    change (2 ^ 32) with 4294967296 in Hf.
    Z.div_mod_to_equations. lia.
  - change (Z.land (Z.shiftr f 23) (Z.ones 8) = (f / 2 ^ 23) mod 2 ^ 8).
    now rewrite Z.land_ones, Z.shiftr_div_pow2 by lia.
  - change (Z.land f (Z.ones 23) = f mod 2 ^ 23).
    now rewrite Z.land_ones by lia.
Qed.

Lemma double_bits_arith (d : double) :
  is_double d ->
  double_bits d = mkFloatBits 64 d (d / 2 ^ 63) ((d / 2 ^ 52) mod 2 ^ 11) (d mod 2 ^ 52).
Proof.
  intros Hd. unfold double_bits. cbv zeta. rewrite (double_to_u64_id d Hd).
  f_equal.
  - change (Z.land (Z.shiftr d 63) (Z.ones 1) = d / 2 ^ 63).
    rewrite Z.land_ones, Z.shiftr_div_pow2 by lia.
    apply Z.mod_small. unfold is_double in Hd.
    change (2 ^ 1) with 2. change (2 ^ 63) with 9223372036854775808.
    change (2 ^ 64) with 18446744073709551616 in Hd.
    Z.div_mod_to_equations. lia.
  - change (Z.land (Z.shiftr d 52) (Z.ones 11) = (d / 2 ^ 52) mod 2 ^ 11).
    now rewrite Z.land_ones, Z.shiftr_div_pow2 by lia.
  - change (Z.land d (Z.ones 52) = d mod 2 ^ 52).
    now rewrite Z.land_ones by lia.
Qed.

Ltac pow2_consts :=
  change (2 ^ 8) with 256 in *; change (2 ^ 11) with 2048 in *;
  change (2 ^ 23) with 8388608 in *; change (2 ^ 31) with 2147483648 in *;
  change (2 ^ 32) with 4294967296 in *;
  change (2 ^ 52) with 4503599627370496 in *;
  change (2 ^ 63) with 9223372036854775808 in *;
  change (2 ^ 64) with 18446744073709551616 in *.

Ltac field_arith := pow2_consts; Z.div_mod_to_equations; lia.

(** A pattern assembled from in-bounds fields decodes to those fields. *)
Lemma float_bits_pattern (s e m : Z) :
  0 <= s <= 1 -> 0 <= e < 2 ^ 8 -> 0 <= m < 2 ^ 23 ->
  is_float (pattern_of_fields 32 s e m) /\
  float_bits (pattern_of_fields 32 s e m) =
    mkFloatBits 32 (pattern_of_fields 32 s e m) s e m.
Proof.
  intros Hs He Hm.
  assert (Hf : is_float (pattern_of_fields 32 s e m)).
  { unfold is_float, pattern_of_fields. cbn [fraction_width Z.eqb Pos.eqb].
    change (2 ^ (32 - 1)) with 2147483648. pow2_consts. lia. }
  split; [exact Hf|].
  rewrite (float_bits_arith _ Hf). unfold pattern_of_fields.
  cbn [fraction_width Z.eqb Pos.eqb]. change (2 ^ (32 - 1)) with 2147483648.
  f_equal; field_arith.
Qed.

Lemma double_bits_pattern (s e m : Z) :
  0 <= s <= 1 -> 0 <= e < 2 ^ 11 -> 0 <= m < 2 ^ 52 ->
  is_double (pattern_of_fields 64 s e m) /\
  double_bits (pattern_of_fields 64 s e m) =
    mkFloatBits 64 (pattern_of_fields 64 s e m) s e m.
Proof.
  intros Hs He Hm.
  assert (Hd : is_double (pattern_of_fields 64 s e m)).
  { unfold is_double, pattern_of_fields. cbn [fraction_width Z.eqb Pos.eqb].
    change (2 ^ (64 - 1)) with 9223372036854775808. pow2_consts. lia. }
  split; [exact Hd|].
  rewrite (double_bits_arith _ Hd). unfold pattern_of_fields.
  cbn [fraction_width Z.eqb Pos.eqb]. change (2 ^ (64 - 1)) with 9223372036854775808.
  f_equal; field_arith.
Qed.

(** C4. Decoding is total and has no error state: every bit pattern of
    either width yields a fully populated record (raw pattern and three
    in-bounds fields) and the printing code returns, whatever the state of
    the world; and every combination of in-bounds fields -- signed zeros,
    infinities and NaNs with any fraction among them -- is the decoding of
    a legal input. *)
Theorem decode_total (f : float) (d : double)
    (Hf : is_float f) (Hd : is_double d) :
  ((exists s e m, float_bits f = mkFloatBits 32 f s e m /\
                  fields_in_bounds (mkFloatBits 32 f s e m)) /\
   (exists out, emits (decode_float f) tt out)) /\
  ((exists s e m, double_bits d = mkFloatBits 64 d s e m /\
                  fields_in_bounds (mkFloatBits 64 d s e m)) /\
   (exists out, emits (decode_double d) tt out)) /\
  (forall s e m, 0 <= s <= 1 -> 0 <= e < 2 ^ 8 -> 0 <= m < 2 ^ 23 ->
     is_float (pattern_of_fields 32 s e m) /\
     float_bits (pattern_of_fields 32 s e m) =
       mkFloatBits 32 (pattern_of_fields 32 s e m) s e m) /\
  (forall s e m, 0 <= s <= 1 -> 0 <= e < 2 ^ 11 -> 0 <= m < 2 ^ 52 ->
     is_double (pattern_of_fields 64 s e m) /\
     double_bits (pattern_of_fields 64 s e m) =
       mkFloatBits 64 (pattern_of_fields 64 s e m) s e m).
Proof.
  split; [|split; [|split]].
  - split.
    + exists (f / 2 ^ 31), ((f / 2 ^ 23) mod 2 ^ 8), (f mod 2 ^ 23).
      split; [exact (float_bits_arith f Hf)|].
      rewrite <- (float_bits_arith f Hf). apply float_fields_in_bounds.
    + pose proof (behaves_emits _ (behaves_decode_float f)) as H.
      destruct (result_of (decode_float f)). eexists. exact H.
  - split.
    + exists (d / 2 ^ 63), ((d / 2 ^ 52) mod 2 ^ 11), (d mod 2 ^ 52).
      split; [exact (double_bits_arith d Hd)|].
      rewrite <- (double_bits_arith d Hd). apply double_fields_in_bounds.
    + pose proof (behaves_emits _ (behaves_decode_double d)) as H.
      destruct (result_of (decode_double d)). eexists. exact H.
  - exact float_bits_pattern.
  - exact double_bits_pattern.
Qed.

Lemma decode_total_witness :
  (exists out, emits (decode_float 0x7FC00001) tt out) /\
  (exists out, emits (decode_double 0xFFF0000000000000) tt out).
Proof.
  destruct (decode_total 0x7FC00001 0xFFF0000000000000) as [[_ H1] [[_ H2] _]].
  - unfold is_float. lia.
  - unfold is_double. lia.
  - split; [exact H1 | exact H2].
Defined.

(** ** Classification *)

Lemma row_unique (emax e m : Z) :
  0 < emax -> 0 <= e <= emax ->
  exists! c, row c emax e m.
Proof.
  intros Hmax He.
  destruct (Z.eq_dec e 0) as [E0|E0]; [|destruct (Z.eq_dec e emax) as [E1|E1]];
    try destruct (Z.eq_dec m 0) as [M0|M0].
  - exists SignedZero. split; [cbn; lia|]. intros [] H; cbn in H; try reflexivity; lia.
  - exists Subnormal. split; [cbn; lia|]. intros [] H; cbn in H; try reflexivity; lia.
  - exists SignedInfinity. split; [cbn; lia|]. intros [] H; cbn in H; try reflexivity; lia.
  - exists NaN. split; [cbn; lia|]. intros [] H; cbn in H; try reflexivity; lia.
  - exists Normal. split; [cbn; lia|]. intros [] H; cbn in H; try reflexivity; lia.
  - exists Normal. split; [cbn; lia|]. intros [] H; cbn in H; try reflexivity; lia.
Qed.

(** C5 (as amended). The classification table is a function of the
    decoded exponent and fraction: for every input of either width, with
    [E_max] 255 (32-bit) or 2047 (64-bit), exactly one row applies -- zero,
    subnormal, normal, infinity or NaN.  The program itself takes no such
    decision. *)
Theorem classification_total (f : float) (d : double) :
  (E_max 32 = 255 /\ exists! c, class_of (float_bits f) c) /\
  (E_max 64 = 2047 /\ exists! c, class_of (double_bits d) c).
Proof.
  split; (split; [reflexivity|]).
  - destruct (float_fields_in_bounds f) as (_ & He & _).
    apply row_unique; [reflexivity|].
    cbn [width float_bits exponent_width E_max Z.eqb Pos.eqb] in *.
    pow2_consts. lia.
  - destruct (double_fields_in_bounds d) as (_ & He & _).
    apply row_unique; [reflexivity|].
    cbn [width double_bits exponent_width E_max Z.eqb Pos.eqb] in *.
    pow2_consts. lia.
Qed.

(** C5, as stated, fails: the spec's own case [-0.0f] is printed as the
    value, the bits and the three fields, and nothing else; no
    classification is computed or reported. *)
Lemma decode_reports_no_class :
  output_of (decode_float lit_m0_0f) = report_m0_0f /\
  report_m0_0f =
    String.append (C "float = -0\n")
      (String.append (C "bits  = 1 00000000 00000000000000000000000\n")
         (String.append (C "sign  = 1\n")
            (String.append (C "exp   = 0x00 (0)\n") (C "frac  = 0x000000 (0)\n")))).
Proof. split; vm_compute; reflexivity. Qed.

(** ** Negation *)

Lemma lxor_top_bit (p x : Z) :
  0 <= p -> 0 <= x < 2 ^ (p + 1) ->
  Z.lxor x (Z.shiftl 1 p) = if x <? 2 ^ p then x + 2 ^ p else x - 2 ^ p.
Proof.
  intros Hp Hx. rewrite Z.shiftl_1_l.
  assert (Hpow : 2 ^ (p + 1) = 2 * 2 ^ p) by (rewrite Z.pow_add_r by lia; lia).
  assert (Hlow : forall y, 0 <= y < 2 ^ p -> Z.lxor y (2 ^ p) = y + 2 ^ p).
  { intros y Hy. symmetry. apply Z.add_nocarry_lxor.
    apply Z.bits_inj'. intros i Hi. rewrite Z.land_spec, Z.bits_0, Z.pow2_bits_eqb by lia.
    destruct (Z.eqb_spec p i) as [<-|Hne]; [|apply andb_false_r].
    rewrite (testbit_high y p p); [reflexivity | exact Hy | lia]. }
  destruct (Z.ltb_spec x (2 ^ p)) as [Hlt|Hge].
  - apply Hlow. lia.
  - assert (Hxy : x = Z.lxor (x - 2 ^ p) (2 ^ p)) by (rewrite Hlow; lia).
    rewrite Hxy at 1.
    rewrite Z.lxor_assoc, Z.lxor_nilpotent, Z.lxor_0_r. reflexivity.
Qed.

Lemma float_neg_arith (x : float) :
  is_float x -> float_neg x = if x <? 2 ^ 31 then x + 2 ^ 31 else x - 2 ^ 31.
Proof. intros Hx. exact (lxor_top_bit 31 x ltac:(lia) Hx). Qed.

Lemma double_neg_arith (x : double) :
  is_double x -> double_neg x = if x <? 2 ^ 63 then x + 2 ^ 63 else x - 2 ^ 63.
Proof. intros Hx. exact (lxor_top_bit 63 x ltac:(lia) Hx). Qed.

Lemma float_neg_range (x : float) : is_float x -> is_float (float_neg x).
Proof.
  intros Hx. rewrite (float_neg_arith x Hx). unfold is_float in *.
  destruct (Z.ltb_spec x (2 ^ 31)); pow2_consts; lia.
Qed.

Lemma double_neg_range (x : double) : is_double x -> is_double (double_neg x).
Proof.
  intros Hx. rewrite (double_neg_arith x Hx). unfold is_double in *.
  destruct (Z.ltb_spec x (2 ^ 63)); pow2_consts; lia.
Qed.

Lemma float_neg_bits (x : float) :
  is_float x ->
  float_bits (float_neg x) =
    mkFloatBits 32 (float_neg x) (1 - sign (float_bits x))
                (exponent (float_bits x)) (fraction (float_bits x)) /\
  float_neg x mod 2 ^ 31 = x mod 2 ^ 31.
Proof.
  intros Hx. pose proof (float_neg_range x Hx) as Hn.
  rewrite (float_bits_arith _ Hn), (float_bits_arith _ Hx). cbn [sign exponent fraction].
  rewrite (float_neg_arith x Hx) in *. unfold is_float in *.
  destruct (Z.ltb_spec x (2 ^ 31)); (split; [f_equal|]); field_arith.
Qed.

Lemma double_neg_bits (x : double) :
  is_double x ->
  double_bits (double_neg x) =
    mkFloatBits 64 (double_neg x) (1 - sign (double_bits x))
                (exponent (double_bits x)) (fraction (double_bits x)) /\
  double_neg x mod 2 ^ 63 = x mod 2 ^ 63.
Proof.
  intros Hx. pose proof (double_neg_range x Hx) as Hn.
  rewrite (double_bits_arith _ Hn), (double_bits_arith _ Hx). cbn [sign exponent fraction].
  rewrite (double_neg_arith x Hx) in *. unfold is_double in *.
  destruct (Z.ltb_spec x (2 ^ 63)); (split; [f_equal|]); field_arith.
Qed.

Lemma SF_of_fields_opp (prec emax : Z) (s : bool) (e m : Z) :
  IEEE.SF_of_fields prec emax (negb s) e m = SFopp (IEEE.SF_of_fields prec emax s e m).
Proof.
  unfold IEEE.SF_of_fields.
  destruct (e =? 0); [destruct m; reflexivity|].
  destruct (e =? IEEE.biased_max emax); [destruct (m =? 0); reflexivity|].
  destruct (m + 2 ^ (prec - 1)); reflexivity.
Qed.

Lemma float_neg_signbit (x : float) :
  is_float x -> float_signbit (float_neg x) = negb (float_signbit x).
Proof.
  intros Hx. unfold float_signbit, IEEE.sign_of_bits.
  change (2 ^ (24 - 1) * (2 * 128)) with (2 ^ 31).
  rewrite (float_neg_arith x Hx). unfold is_float in Hx.
  destruct (Z.ltb_spec x (2 ^ 31)).
  - replace ((x + 2 ^ 31) / 2 ^ 31) with 1 by field_arith.
    replace (x / 2 ^ 31) with 0 by field_arith. reflexivity.
  - replace ((x - 2 ^ 31) / 2 ^ 31) with 0 by field_arith.
    replace (x / 2 ^ 31) with 1 by field_arith. reflexivity.
Qed.

Lemma double_neg_signbit (x : double) :
  is_double x -> double_signbit (double_neg x) = negb (double_signbit x).
Proof.
  intros Hx. unfold double_signbit, IEEE.sign_of_bits.
  change (2 ^ (53 - 1) * (2 * 1024)) with (2 ^ 63).
  rewrite (double_neg_arith x Hx). unfold is_double in Hx.
  destruct (Z.ltb_spec x (2 ^ 63)).
  - replace ((x + 2 ^ 63) / 2 ^ 63) with 1 by field_arith.
    replace (x / 2 ^ 63) with 0 by field_arith. reflexivity.
  - replace ((x - 2 ^ 63) / 2 ^ 63) with 0 by field_arith.
    replace (x / 2 ^ 63) with 1 by field_arith. reflexivity.
Qed.

(** Inverting the sign bit negates the value. *)
Lemma float_neg_value (x : float) :
  is_float x -> float_value (float_neg x) = SFopp (float_value x).
Proof.
  intros Hx. unfold float_value, IEEE.SF_of_bits. cbv zeta.
  rewrite <- SF_of_fields_opp.
  pose proof (float_neg_signbit x Hx) as Hs. unfold float_signbit in Hs. rewrite Hs.
  change (24 - 1) with 23. change (2 * 128) with (2 ^ 8).
  rewrite (float_neg_arith x Hx). unfold is_float in Hx.
  f_equal; destruct (Z.ltb_spec x (2 ^ 31)); field_arith.
Qed.

Lemma double_neg_value (x : double) :
  is_double x -> double_value (double_neg x) = SFopp (double_value x).
Proof.
  intros Hx. unfold double_value, IEEE.SF_of_bits. cbv zeta.
  rewrite <- SF_of_fields_opp.
  pose proof (double_neg_signbit x Hx) as Hs. unfold double_signbit in Hs. rewrite Hs.
  change (53 - 1) with 52. change (2 * 1024) with (2 ^ 11).
  rewrite (double_neg_arith x Hx). unfold is_double in Hx.
  f_equal; destruct (Z.ltb_spec x (2 ^ 63)); field_arith.
Qed.

(** C6. For every finite nonzero value [x] of either width, decoding
    [-x] gives the exponent and fraction of [x] and the opposite sign;
    all raw bits below the sign bit are the same. *)
Theorem decode_neg_symmetry (x : float) (y : double)
    (Hx : is_float x) (Hy : is_double y)
    (Fx : finite_nonzero (float_value x)) (Fy : finite_nonzero (double_value y)) :
  (float_value (float_neg x) = SFopp (float_value x) /\
   width (float_bits (float_neg x)) = width (float_bits x) /\
   exponent (float_bits (float_neg x)) = exponent (float_bits x) /\
   fraction (float_bits (float_neg x)) = fraction (float_bits x) /\
   sign (float_bits (float_neg x)) = 1 - sign (float_bits x) /\
   raw (float_bits (float_neg x)) mod 2 ^ 31 = raw (float_bits x) mod 2 ^ 31) /\
  (double_value (double_neg y) = SFopp (double_value y) /\
   width (double_bits (double_neg y)) = width (double_bits y) /\
   exponent (double_bits (double_neg y)) = exponent (double_bits y) /\
   fraction (double_bits (double_neg y)) = fraction (double_bits y) /\
   sign (double_bits (double_neg y)) = 1 - sign (double_bits y) /\
   raw (double_bits (double_neg y)) mod 2 ^ 63 = raw (double_bits y) mod 2 ^ 63).
Proof.
  split.
  - destruct (float_neg_bits x Hx) as [Hb Hlow].
    split; [exact (float_neg_value x Hx)|].
    rewrite Hb. cbn [width sign exponent fraction raw].
    split; [reflexivity|]. split; [reflexivity|]. split; [reflexivity|].
    split; [reflexivity|].
    rewrite Hlow. f_equal. symmetry. exact (float_to_u32_id x Hx).
  - destruct (double_neg_bits y Hy) as [Hb Hlow].
    split; [exact (double_neg_value y Hy)|].
    rewrite Hb. cbn [width sign exponent fraction raw].
    split; [reflexivity|]. split; [reflexivity|]. split; [reflexivity|].
    split; [reflexivity|].
    rewrite Hlow. f_equal. symmetry. exact (double_to_u64_id y Hy).
Qed.

Lemma decode_neg_symmetry_witness :
  exponent (float_bits (float_neg 0x40A00000)) = exponent (float_bits 0x40A00000) /\
  fraction (double_bits (double_neg 0x3FB999999999999A)) =
    fraction (double_bits 0x3FB999999999999A).
Proof.
  destruct (decode_neg_symmetry 0x40A00000 0x3FB999999999999A)
    as [(_ & _ & H1 & _) (_ & _ & _ & H2 & _)].
  - unfold is_float. lia.
  - unfold is_double. lia.
  - vm_compute. exact I.
  - vm_compute. exact I.
  - split; [exact H1 | exact H2].
Defined.

(** ** The sample values *)

(** The literals denote the values nearest to 5, 1/10 and 0: the
    significand [m] and exponent [e] of each satisfy [m * 2^e = 5], resp.
    [|m * 2^e - 1/10| <= 2^e / 2]. *)
Lemma literal_values :
  float_value lit_5_0f = S754_finite false 0xA00000 (-21) /\
  0xA00000 = 5 * 2 ^ 21 /\
  float_value lit_0_1f = S754_finite false 0xCCCCCD (-27) /\
  2 * Z.abs (10 * 0xCCCCCD - 2 ^ 27) <= 10 /\
  double_value lit_0_1 = S754_finite false 0x1999999999999A (-56) /\
  2 * Z.abs (10 * 0x1999999999999A - 2 ^ 56) <= 10 /\
  float_value lit_m0_0f = S754_zero true.
Proof. repeat split; vm_compute; congruence. Qed.

(** C7. The 32-bit decoder on the three sample inputs: [5.0f] gives sign
    0, exponent 129 ([0x81]), fraction [0x200000]; [0.1f] gives sign 0,
    exponent 123 ([0x7B]), fraction [0x4CCCCD]; [-0.0f] gives sign 1,
    exponent 0, fraction 0, the signed-zero row of the table. *)
Theorem decode_float_samples :
  float_bits lit_5_0f = mkFloatBits 32 0x40A00000 0 129 0x200000 /\
  float_bits lit_0_1f = mkFloatBits 32 0x3DCCCCCD 0 123 0x4CCCCD /\
  float_bits lit_m0_0f = mkFloatBits 32 0x80000000 1 0 0 /\
  class_of (float_bits lit_m0_0f) SignedZero /\
  output_of (decode_float lit_5_0f) = report_5_0f /\
  output_of (decode_float lit_0_1f) = report_0_1f /\
  output_of (decode_float lit_m0_0f) = report_m0_0f.
Proof.
  split; [vm_compute; reflexivity|].
  split; [vm_compute; reflexivity|].
  split; [vm_compute; reflexivity|].
  split; [vm_compute; split; reflexivity|].
  split; [vm_compute; reflexivity|].
  split; vm_compute; reflexivity.
Qed.

(** C8. The 64-bit decoder on [0.1] gives sign 0, exponent 1019
    ([0x3FB]) and fraction [0x999999999999A]. *)
Theorem decode_double_sample :
  double_bits lit_0_1 = mkFloatBits 64 0x3FB999999999999A 0 1019 0x999999999999A /\
  output_of (decode_double lit_0_1) = report_0_1.
Proof. split; vm_compute; reflexivity. Qed.

(** C9 at its failing input. [decode_float] prints exponent and fraction
    each in hexadecimal and in decimal; [decode_double] does so for the
    exponent only: its fraction line carries the 13 hexadecimal digits and
    no decimal rendering. *)
Theorem decode_double_fraction_line :
  output_of (printf "exp    = 0x%03llX (%llu)\n"
               [ArgU (ull (exponent (double_bits lit_0_1)));
                ArgU (ull (exponent (double_bits lit_0_1)))])
    = C "exp    = 0x3FB (1019)\n" /\
  output_of (printf "frac   = 0x%013llX\n" [ArgU (ull (fraction (double_bits lit_0_1)))])
    = C "frac   = 0x999999999999A\n" /\
  output_of (decode_double lit_0_1) =
    C "double = 0.10000000000000001\nbits   = 0 01111111011 1001100110011001100110011001100110011001100110011010\nsign   = 0\nexp    = 0x3FB (1019)\nfrac   = 0x999999999999A\n" /\
  output_of (printf "frac  = 0x%06X (%u)\n"
               [ArgU (fraction (float_bits lit_0_1f)); ArgU (fraction (float_bits lit_0_1f))])
    = C "frac  = 0x4CCCCD (5033165)\n".
Proof.
  split; [vm_compute; reflexivity|].
  split; [vm_compute; reflexivity|].
  split; vm_compute; reflexivity.
Qed.

(** C10. [main] takes nothing from its environment: in every state of the
    world it leaves standard input untouched, appends the same text to
    standard output -- the reports of [5.0f], [0.1f], [0.1] and [-0.0f] in
    this order, a line [----] between consecutive ones -- and returns 0. *)
Theorem main_deterministic :
  (forall w, main w = (0, mkWorld (w_stdin w) (String.append (w_stdout w) run_output))) /\
  run_output =
    String.append (output_of (decode_float lit_5_0f))
      (String.append (output_of (puts "----"))
         (String.append (output_of (decode_float lit_0_1f))
            (String.append (output_of (puts "----"))
               (String.append (output_of (decode_double lit_0_1))
                  (String.append (output_of (puts "----"))
                     (output_of (decode_float lit_m0_0f))))))).
Proof.
  split.
  - pose proof (behaves_emits main behaves_main) as H.
    replace (result_of main) with 0 in H by (vm_compute; reflexivity).
    replace (output_of main) with run_output in H by (vm_compute; reflexivity).
    exact H.
  - vm_compute. reflexivity.
Qed.


(** ** The exponent and fraction lines, for every input *)

Lemma output_bind {A B : Type} (m : IO A) (k : A -> IO B) :
  behaves m -> (forall a, behaves (k a)) ->
  output_of (bind m k) = String.append (output_of m) (output_of (k (result_of m))).
Proof.
  intros Hm Hk.
  pose proof (behaves_emits m Hm) as Em.
  pose proof (behaves_emits _ (Hk (result_of m))) as Ek.
  exact (proj2 (emits_output _ _ _ (emits_bind m k _ _ _ _ Em Ek))).
Qed.

Lemma output_write (s : string) : output_of (write s) = s.
Proof. reflexivity. Qed.

Lemma printf_exp_float (e : Z) :
  format (C "exp   = 0x%02X (%u)\n") None [ArgU e; ArgU e] =
  exp_line_float (mkFloatBits 32 0 0 e 0).
Proof. reflexivity. Qed.

(** *** Digits *)

Lemma undigits_app (b : Z) (xs ys : list Z) :
  undigits b (xs ++ ys) = fold_left (fun acc d => acc * b + d) ys (undigits b xs).
Proof. unfold undigits. apply fold_left_app. Qed.

Lemma digits_aux_app (fuel : nat) (b n : Z) (acc : list Z) :
  digits_aux fuel b n acc = digits_aux fuel b n [] ++ acc.
Proof.
  revert n acc. induction fuel as [|k IH]; intros n acc; cbn [digits_aux].
  - reflexivity.
  - destruct (n / b =? 0); [reflexivity|].
    rewrite (IH (n / b) (n mod b :: acc)), (IH (n / b) [n mod b]).
    now rewrite <- app_assoc.
Qed.

Lemma digits_aux_step (k : nat) (b n : Z) :
  digits_aux (S k) b n [] =
    if n / b =? 0 then [n mod b] else digits_aux k b (n / b) [] ++ [n mod b].
Proof.
  cbn [digits_aux]. destruct (n / b =? 0); [reflexivity|apply digits_aux_app].
Qed.

Lemma digits_aux_value (fuel : nat) (b n : Z) :
  2 <= b -> 0 <= n < b ^ Z.of_nat fuel ->
  undigits b (digits_aux fuel b n []) = n.
Proof.
  intros Hb. revert n. induction fuel as [|k IH]; intros n Hn.
  - cbn in *. lia.
  - rewrite digits_aux_step.
    destruct (Z.eqb_spec (n / b) 0) as [Hq|Hq].
    + cbn. pose proof (Z.div_mod n b ltac:(lia)). lia.
    + rewrite undigits_app. cbn [fold_left]. rewrite IH.
      * pose proof (Z.div_mod n b ltac:(lia)). lia.
      * rewrite Nat2Z.inj_succ, Z.pow_succ_r in Hn by lia.
        split; [apply Z.div_pos; lia|].
        apply Z.div_lt_upper_bound; lia.
Qed.

Lemma digits_aux_length (fuel : nat) (b n j : Z) :
  2 <= b -> 1 <= j -> 0 <= n < b ^ j ->
  Z.of_nat (List.length (digits_aux fuel b n [])) <= j.
Proof.
  intros Hb. revert n j. induction fuel as [|k IH]; intros n j Hj Hn.
  - cbn. lia.
  - rewrite digits_aux_step.
    destruct (Z.eqb_spec (n / b) 0) as [Hq|Hq].
    + cbn. lia.
    + rewrite length_app, Nat2Z.inj_add. cbn [List.length].
      assert (Hj2 : 2 <= j).
      { destruct (Z.eq_dec j 1) as [->|]; [|lia].
        exfalso. apply Hq. apply Z.div_small. rewrite Z.pow_1_r in Hn. lia. }
      specialize (IH (n / b) (j - 1) ltac:(lia)).
      replace j with (Z.succ (j - 1)) in Hn by lia.
      rewrite Z.pow_succ_r in Hn by lia.
      assert (0 <= n / b < b ^ (j - 1)).
      { split; [apply Z.div_pos; lia|apply Z.div_lt_upper_bound; lia]. }
      specialize (IH ltac:(assumption)). lia.
Qed.

Lemma digits_aux_range (fuel : nat) (b n : Z) :
  2 <= b -> Forall (fun d => 0 <= d < b) (digits_aux fuel b n []).
Proof.
  intros Hb. revert n. induction fuel as [|k IH]; intros n.
  - constructor.
  - rewrite digits_aux_step.
    assert (0 <= n mod b < b) by (apply Z.mod_pos_bound; lia).
    destruct (n / b =? 0).
    + repeat constructor; lia.
    + apply Forall_app. split; [apply IH|repeat constructor; lia].
Qed.

Lemma digits_fuel (b n : Z) :
  2 <= b -> 0 <= n -> n < b ^ Z.of_nat (S (Z.to_nat (Z.log2 n))).
Proof.
  intros Hb Hn. rewrite Nat2Z.inj_succ, Z2Nat.id by apply Z.log2_nonneg.
  destruct (Z.eq_dec n 0) as [->|Hne].
  - cbn. lia.
  - pose proof (Z.log2_spec n ltac:(lia)) as [_ Hlt].
    apply Z.lt_le_trans with (1 := Hlt).
    apply Z.pow_le_mono_l. pose proof (Z.log2_nonneg n). lia.
Qed.

Lemma digits_value (b n : Z) : 2 <= b -> 0 <= n -> undigits b (digits b n) = n.
Proof.
  intros Hb Hn. apply digits_aux_value; [assumption|].
  split; [assumption|apply digits_fuel; assumption].
Qed.

Lemma digits_length (b n j : Z) :
  2 <= b -> 1 <= j -> 0 <= n < b ^ j -> Z.of_nat (List.length (digits b n)) <= j.
Proof. intros. now apply digits_aux_length. Qed.

Lemma digits_range (b n : Z) : 2 <= b -> Forall (fun d => 0 <= d < b) (digits b n).
Proof. intros. now apply digits_aux_range. Qed.

Lemma char_digit_char (d : Z) : 0 <= d < 16 -> char_digit (digit_char d) = d.
Proof.
  intros Hd. destruct d as [|p|p]; [reflexivity| |lia].
  repeat (destruct p as [p|p|]; try reflexivity; try lia).
Qed.

Lemma digits_of_string_of_digits (ds : list Z) :
  Forall (fun d => 0 <= d < 16) ds -> digits_of_string (string_of_digits ds) = ds.
Proof.
  induction 1 as [|d ds Hd _ IH]; cbn [string_of_digits digits_of_string].
  - reflexivity.
  - now rewrite char_digit_char, IH.
Qed.

Lemma length_string_of_digits (ds : list Z) :
  String.length (string_of_digits ds) = List.length ds.
Proof. induction ds as [|d ds IH]; cbn; [reflexivity | now rewrite IH]. Qed.

Lemma length_append (s t : string) :
  String.length (String.append s t) = (String.length s + String.length t)%nat.
Proof. induction s as [|c s IH]; cbn; [reflexivity | now rewrite IH]. Qed.

Lemma length_replicate (k : nat) (c : ascii) : String.length (replicate k c) = k.
Proof. induction k as [|k IH]; cbn; [reflexivity | now rewrite IH]. Qed.

Lemma digits_of_string_append (s t : string) :
  digits_of_string (String.append s t) = digits_of_string s ++ digits_of_string t.
Proof. induction s as [|c s IH]; cbn; [reflexivity | now rewrite IH]. Qed.

Lemma undigits_zeros (b : Z) (k : nat) (ds : list Z) :
  undigits b (digits_of_string (replicate k "0") ++ ds) = undigits b ds.
Proof.
  induction k as [|k IH]; [reflexivity|].
  cbn [replicate digits_of_string app]. unfold undigits in *. cbn [fold_left].
  exact IH.
Qed.

Lemma fmt_unsigned_read (b : Z) (cv : conv) (n : Z) :
  2 <= b <= 16 -> 0 <= n -> wrap_arg cv n = n ->
  c_zero cv = true \/ c_width cv = 0 ->
  read_number b (fmt_unsigned b cv n) = n.
Proof.
  intros Hb Hn Hw Hz. unfold read_number, fmt_unsigned, pad. rewrite Hw.
  assert (Hds : digits_of_string (string_of_digits (digits b n)) = digits b n).
  { apply digits_of_string_of_digits.
    eapply Forall_impl; [|apply (digits_range b n); lia]. cbv beta. lia. }
  rewrite digits_of_string_append, Hds.
  destruct Hz as [-> | ->].
  - rewrite undigits_zeros. apply digits_value; lia.
  - replace (Z.to_nat _) with 0%nat by lia. cbn [replicate digits_of_string app].
    apply digits_value; lia.
Qed.

Lemma fmt_unsigned_length (b : Z) (cv : conv) (n : Z) :
  2 <= b -> wrap_arg cv n = n -> 1 <= c_width cv -> 0 <= n < b ^ c_width cv ->
  String.length (fmt_unsigned b cv n) = Z.to_nat (c_width cv).
Proof.
  intros Hb Hw Hj Hn. unfold fmt_unsigned, pad. rewrite Hw.
  rewrite length_append, length_replicate, length_string_of_digits.
  pose proof (digits_length b n (c_width cv) Hb Hj Hn). lia.
Qed.

(** For every input, [decode_float] ends with the exponent line and the
    fraction line, each carrying the field in hexadecimal (2 and 6 digits,
    zero-padded) and in decimal; [decode_double] ends with the exponent line
    in hexadecimal (3 digits) and decimal and a fraction line with the 13
    hexadecimal digits alone. *)
Lemma report_lines (f : float) (d : double) :
  (exists head,
     output_of (decode_float f) =
       String.append head
         (String.append (exp_line_float (float_bits f)) (frac_line_float (float_bits f)))) /\
  (exists head,
     output_of (decode_double d) =
       String.append head
         (String.append (exp_line_double (double_bits d)) (frac_line_double (double_bits d)))).
Proof.
  split.
  - unfold decode_float, float_bits. cbv zeta.
    repeat (rewrite output_bind;
            [| repeat first [io_step | apply behaves_print_bits_u32]
             | intros ?; repeat first [io_step | apply behaves_print_bits_u32] ]).
    eexists. rewrite <- !append_assoc. reflexivity.
  - unfold decode_double, double_bits. cbv zeta.
    repeat (rewrite output_bind;
            [| repeat first [io_step | apply behaves_print_bits_u64]
             | intros ?; repeat first [io_step | apply behaves_print_bits_u64] ]).
    eexists. rewrite <- !append_assoc. reflexivity.
Qed.

Lemma wrap_arg_small (cv : conv) (n : Z) : 0 <= n < 2 ^ 32 -> wrap_arg cv n = n.
Proof.
  intros Hn. unfold wrap_arg. apply Z.mod_small.
  destruct (Nat.leb 2 (c_long cv)); pow2_consts; lia.
Qed.

Lemma wrap_arg_long (z : bool) (w : Z) (n : Z) :
  0 <= n < 2 ^ 64 -> wrap_arg (mkConv z w None 2) n = n.
Proof. intros Hn. unfold wrap_arg. cbn. apply Z.mod_small. exact Hn. Qed.

(** X11. The hexadecimal renderings have exactly the nibble width of the
    field and, like the decimal ones, read back as the field. *)
Lemma field_renderings (f : float) (d : double) :
  (let e := exponent (float_bits f) in
   let m := fraction (float_bits f) in
   String.length (fmt_unsigned 16 (mkConv true 2 None 0) e) = 2%nat /\
   read_number 16 (fmt_unsigned 16 (mkConv true 2 None 0) e) = e /\
   read_number 10 (fmt_unsigned 10 conv0 e) = e /\
   String.length (fmt_unsigned 16 (mkConv true 6 None 0) m) = 6%nat /\
   read_number 16 (fmt_unsigned 16 (mkConv true 6 None 0) m) = m /\
   read_number 10 (fmt_unsigned 10 conv0 m) = m) /\
  (let e := ull (exponent (double_bits d)) in
   let m := ull (fraction (double_bits d)) in
   e = exponent (double_bits d) /\ m = fraction (double_bits d) /\
   String.length (fmt_unsigned 16 (mkConv true 3 None 2) e) = 3%nat /\
   read_number 16 (fmt_unsigned 16 (mkConv true 3 None 2) e) = e /\
   read_number 10 (fmt_unsigned 10 (mkConv false 0 None 2) e) = e /\
   String.length (fmt_unsigned 16 (mkConv true 13 None 2) m) = 13%nat /\
   read_number 16 (fmt_unsigned 16 (mkConv true 13 None 2) m) = m).
Proof.
  split.
  - destruct (float_fields_in_bounds f) as (_ & He & Hm).
    cbn [width float_bits exponent_width fraction_width Z.eqb Pos.eqb] in He, Hm.
    cbv zeta.
    set (e := exponent (float_bits f)) in *. set (m := fraction (float_bits f)) in *.
    assert (He32 : 0 <= e < 2 ^ 32) by (pow2_consts; lia).
    assert (Hm32 : 0 <= m < 2 ^ 32) by (pow2_consts; lia).
    repeat apply conj.
    + apply (fmt_unsigned_length 16 (mkConv true 2 None 0) e);
        [lia | now apply wrap_arg_small | cbn; lia | cbn [c_width]; pow2_consts; lia].
    + apply fmt_unsigned_read; [lia | lia | now apply wrap_arg_small | now left].
    + apply fmt_unsigned_read; [lia | lia | now apply wrap_arg_small | now right].
    + apply (fmt_unsigned_length 16 (mkConv true 6 None 0) m);
        [lia | now apply wrap_arg_small | cbn; lia | cbn [c_width]; pow2_consts; lia].
    + apply fmt_unsigned_read; [lia | lia | now apply wrap_arg_small | now left].
    + apply fmt_unsigned_read; [lia | lia | now apply wrap_arg_small | now right].
  - destruct (double_fields_in_bounds d) as (_ & He & Hm).
    cbn [width double_bits exponent_width fraction_width Z.eqb Pos.eqb] in He, Hm.
    cbv zeta.
    set (e := exponent (double_bits d)) in *. set (m := fraction (double_bits d)) in *.
    assert (Hue : ull e = e) by (apply Z.mod_small; pow2_consts; lia).
    assert (Hum : ull m = m) by (apply Z.mod_small; pow2_consts; lia).
    rewrite Hue, Hum.
    assert (He64 : 0 <= e < 2 ^ 64) by (pow2_consts; lia).
    assert (Hm64 : 0 <= m < 2 ^ 64) by (pow2_consts; lia).
    repeat apply conj; try reflexivity.
    + apply (fmt_unsigned_length 16 (mkConv true 3 None 2) e);
        [lia | now apply wrap_arg_long | cbn; lia | cbn [c_width]; pow2_consts; lia].
    + apply fmt_unsigned_read; [lia | lia | now apply wrap_arg_long | now left].
    + apply fmt_unsigned_read; [lia | lia | now apply wrap_arg_long | now right].
    + apply (fmt_unsigned_length 16 (mkConv true 13 None 2) m);
        [lia | now apply wrap_arg_long | cbn; lia | cbn [c_width]; pow2_consts; lia].
    + apply fmt_unsigned_read; [lia | lia | now apply wrap_arg_long | now left].
Qed.

(** * Further properties of the code *)

(** ** [print_bits_u32] and [print_bits_u64] *)

Lemma emits_eq {A : Type} (m : IO A) (a : A) (s t : string) :
  emits m a s -> s = t -> emits m a t.
Proof. intros H <-. exact H. Qed.

Lemma bit_of_land (x i : Z) :
  0 <= i ->
  (if negb (Z.land (Z.shiftr x i) 1 =? 0) then "1"%char else "0"%char)
    = bit_char (Z.testbit x i).
Proof.
  intros Hi.
  assert (H : Z.land (Z.shiftr x i) 1 = Z.b2z (Z.testbit x i)).
  { change 1 with (Z.ones 1) at 1.
    rewrite Z.land_ones, Z.shiftr_div_pow2, Z.testbit_spec' by lia. reflexivity. }
  rewrite H. destruct (Z.testbit x i); reflexivity.
Qed.

Lemma emits_bits_loop (x : Z) (sep : Z -> bool) (n : nat) (i : Z) :
  Z.of_nat n <= i + 1 ->
  emits (for_down_aux n i (fun i =>
           putchar (if negb (Z.land (Z.shiftr x i) 1 =? 0) then "1" else "0") ;;
           when (sep i) (putchar " ")))
        tt (bits_text n i x sep).
Proof.
  revert i. induction n as [|n IH]; intros i Hi; cbn [for_down_aux bits_text].
  - apply emits_ret.
  - rewrite Nat2Z.inj_succ in Hi.
    eapply emits_eq.
    + eapply emits_bind with (a := tt).
      * eapply emits_bind
          with (a := tt) (t := if sep i then String " " EmptyString else EmptyString);
          [apply emits_write|].
        unfold when. destruct (sep i); [apply emits_write | apply emits_ret].
      * apply IH. lia.
    + rewrite bit_of_land by lia. destruct (sep i); reflexivity.
Qed.

Lemma emits_print_bits_u32 (x : uint32_t) :
  emits (print_bits_u32 x) tt
        (bits_text 32 31 x (fun i => (i =? 31) || (i =? 23))).
Proof. apply (emits_bits_loop x _ 32 31). lia. Qed.

Lemma emits_print_bits_u64 (x : uint64_t) :
  emits (print_bits_u64 x) tt
        (bits_text 64 63 x (fun i => (i =? 63) || (i =? 52))).
Proof. apply (emits_bits_loop x _ 64 63). lia. Qed.

Lemma bits_text_u32 (x : Z) :
  bits_text 32 31 x (fun i => (i =? 31) || (i =? 23)) =
  String.append (binary_from 1 31 x)
    (String " " (String.append (binary_from 8 23 x)
       (String " " (binary_from 23 0 x)))).
Proof. reflexivity. Qed.

Lemma bits_text_u64 (x : Z) :
  bits_text 64 63 x (fun i => (i =? 63) || (i =? 52)) =
  String.append (binary_from 1 63 x)
    (String " " (String.append (binary_from 11 52 x)
       (String " " (binary_from 52 0 x)))).
Proof. reflexivity. Qed.

Lemma length_binary_from (w : nat) (lo x : Z) :
  String.length (binary_from w lo x) = w.
Proof. induction w as [|w IH]; cbn; [reflexivity | now rewrite IH]. Qed.

Lemma remove_blanks_append (s t : string) :
  remove_blanks (String.append s t) = String.append (remove_blanks s) (remove_blanks t).
Proof.
  induction s as [|c s IH]; cbn; [reflexivity|].
  destruct (Ascii.eqb c " "); cbn; now rewrite IH.
Qed.

Lemma remove_blanks_binary_from (w : nat) (lo x : Z) :
  remove_blanks (binary_from w lo x) = binary_from w lo x.
Proof.
  induction w as [|w IH]; cbn [binary_from remove_blanks]; [reflexivity|].
  rewrite IH. destruct (Z.testbit x (lo + Z.of_nat w)); reflexivity.
Qed.

Lemma fold_digits (b : Z) (ds : list Z) (acc : Z) :
  fold_left (fun a d => a * b + d) ds acc =
  acc * b ^ Z.of_nat (List.length ds) + undigits b ds.
Proof.
  unfold undigits. revert acc.
  induction ds as [|d ds IH]; intros acc; cbn [fold_left List.length].
  - cbn. lia.
  - rewrite (IH (acc * b + d)), (IH (0 * b + d)).
    rewrite Nat2Z.inj_succ, Z.pow_succ_r by lia. ring.
Qed.

Lemma undigits_cons (b d : Z) (ds : list Z) :
  undigits b (d :: ds) = d * b ^ Z.of_nat (List.length ds) + undigits b ds.
Proof.
  unfold undigits at 1. cbn [fold_left]. rewrite fold_digits. ring.
Qed.

Lemma length_digits_of_string (s : string) :
  List.length (digits_of_string s) = String.length s.
Proof. induction s as [|c s IH]; cbn; [reflexivity | now rewrite IH]. Qed.

(** Reading the digits of [binary w x] back gives the low [w] bits. *)
Lemma read_binary (w : nat) (x : Z) :
  read_number 2 (binary_from w 0 x) = x mod 2 ^ Z.of_nat w.
Proof.
  unfold read_number. induction w as [|w IH].
  - cbn. now rewrite Z.mod_1_r.
  - cbn [binary_from digits_of_string]. rewrite undigits_cons, IH.
    rewrite length_digits_of_string, length_binary_from.
    replace (char_digit (bit_char (Z.testbit x (0 + Z.of_nat w))))
      with (Z.b2z (Z.testbit x (Z.of_nat w)))
      by (cbn [Z.add]; destruct (Z.testbit x (Z.of_nat w)); reflexivity).
    rewrite Z.testbit_spec' by lia.
    rewrite Nat2Z.inj_succ, Z.pow_succ_r by lia.
    rewrite (Z.mul_comm 2), Z.rem_mul_r by lia. lia.
Qed.

Lemma binary_from_ext (w : nat) (lo lo' x y : Z) :
  (forall k, 0 <= k < Z.of_nat w -> Z.testbit x (lo + k) = Z.testbit y (lo' + k)) ->
  binary_from w lo x = binary_from w lo' y.
Proof.
  induction w as [|w IH]; intros H; cbn [binary_from]; [reflexivity|].
  rewrite (H (Z.of_nat w)) by lia. rewrite IH; [reflexivity|].
  intros k Hk. apply H. lia.
Qed.

Lemma output_print_bits_u32 (x : Z) :
  output_of (print_bits_u32 x) =
    String.append (binary_from 1 31 x)
      (String " " (String.append (binary_from 8 23 x)
         (String " " (binary_from 23 0 x)))).
Proof.
  pose proof (emits_print_bits_u32 x) as H. rewrite bits_text_u32 in H.
  exact (proj2 (emits_output _ _ _ H)).
Qed.

Lemma output_print_bits_u64 (x : Z) :
  output_of (print_bits_u64 x) =
    String.append (binary_from 1 63 x)
      (String " " (String.append (binary_from 11 52 x)
         (String " " (binary_from 52 0 x)))).
Proof.
  pose proof (emits_print_bits_u64 x) as H. rewrite bits_text_u64 in H.
  exact (proj2 (emits_output _ _ _ H)).
Qed.

(** X1. For every 32-bit word, whatever the state of the world,
    [print_bits_u32] writes 34 characters: bit 31, a blank, bits 30 down to
    23, a blank, bits 22 down to 0, each bit as [0] or [1]. *)
Theorem print_bits_u32_layout (x : uint32_t) :
  emits (print_bits_u32 x) tt
    (String.append (binary_from 1 31 x)
       (String " " (String.append (binary_from 8 23 x)
          (String " " (binary_from 23 0 x))))) /\
  String.length (output_of (print_bits_u32 x)) = 34%nat.
Proof.
  pose proof (emits_print_bits_u32 x) as H. rewrite bits_text_u32 in H.
  split; [exact H|].
  rewrite (proj2 (emits_output _ _ _ H)).
  rewrite length_append. cbn [String.length].
  rewrite length_append. cbn [String.length].
  now rewrite !length_binary_from.
Qed.

(** X2. The same for a 64-bit word: 66 characters, bit 63, a blank, bits
    62 down to 52, a blank, bits 51 down to 0. *)
Theorem print_bits_u64_layout (x : uint64_t) :
  emits (print_bits_u64 x) tt
    (String.append (binary_from 1 63 x)
       (String " " (String.append (binary_from 11 52 x)
          (String " " (binary_from 52 0 x))))) /\
  String.length (output_of (print_bits_u64 x)) = 66%nat.
Proof.
  pose proof (emits_print_bits_u64 x) as H. rewrite bits_text_u64 in H.
  split; [exact H|].
  rewrite (proj2 (emits_output _ _ _ H)).
  rewrite length_append. cbn [String.length].
  rewrite length_append. cbn [String.length].
  now rewrite !length_binary_from.
Qed.

Lemma binary_from_split (a b : nat) (lo x : Z) :
  binary_from (a + b) lo x =
    String.append (binary_from a (lo + Z.of_nat b) x) (binary_from b lo x).
Proof.
  induction a as [|a IH]; cbn [Nat.add binary_from String.append]; [reflexivity|].
  rewrite IH. do 3 f_equal. lia.
Qed.

Lemma remove_blanks_blank (s : string) :
  remove_blanks (String " " s) = remove_blanks s.
Proof. reflexivity. Qed.

Lemma print_bits_u32_digits (x : Z) :
  remove_blanks (output_of (print_bits_u32 x)) = binary 32 x.
Proof.
  rewrite output_print_bits_u32.
  rewrite remove_blanks_append, remove_blanks_blank,
    remove_blanks_append, remove_blanks_blank.
  rewrite !remove_blanks_binary_from. unfold binary.
  pose proof (binary_from_split 1 31 0 x) as H1.
  pose proof (binary_from_split 8 23 0 x) as H2.
  change (0 + Z.of_nat 31) with 31 in H1. change (0 + Z.of_nat 23) with 23 in H2.
  change (1 + 31)%nat with 32%nat in H1. change (8 + 23)%nat with 31%nat in H2.
  rewrite H1, H2. reflexivity.
Qed.

Lemma print_bits_u64_digits (x : Z) :
  remove_blanks (output_of (print_bits_u64 x)) = binary 64 x.
Proof.
  rewrite output_print_bits_u64.
  rewrite remove_blanks_append, remove_blanks_blank,
    remove_blanks_append, remove_blanks_blank.
  rewrite !remove_blanks_binary_from. unfold binary.
  pose proof (binary_from_split 1 63 0 x) as H1.
  pose proof (binary_from_split 11 52 0 x) as H2.
  change (0 + Z.of_nat 63) with 63 in H1. change (0 + Z.of_nat 52) with 52 in H2.
  change (1 + 63)%nat with 64%nat in H1. change (11 + 52)%nat with 63%nat in H2.
  rewrite H1, H2. reflexivity.
Qed.

(** X3. The digits [print_bits_u32] writes are the word: read back in
    base 2, blanks apart, they give [x]; so two words are printed alike
    only if they are equal. *)
Theorem print_bits_u32_roundtrip (x y : uint32_t) (Hx : is_u32 x) (Hy : is_u32 y) :
  read_number 2 (remove_blanks (output_of (print_bits_u32 x))) = x /\
  (output_of (print_bits_u32 x) = output_of (print_bits_u32 y) -> x = y).
Proof.
  assert (R : forall z, is_u32 z ->
                read_number 2 (remove_blanks (output_of (print_bits_u32 z))) = z).
  { intros z Hz. rewrite print_bits_u32_digits. unfold binary.
    rewrite read_binary. apply Z.mod_small. exact Hz. }
  split; [exact (R x Hx)|].
  intros E. rewrite <- (R x Hx), <- (R y Hy), E. reflexivity.
Qed.

Lemma print_bits_u32_roundtrip_witness :
  read_number 2 (remove_blanks (output_of (print_bits_u32 0x3DCCCCCD))) = 0x3DCCCCCD.
Proof.
  refine (proj1 (print_bits_u32_roundtrip 0x3DCCCCCD 0 _ _));
    unfold is_u32; lia.
Defined.

(** X4. Likewise the digits [print_bits_u64] writes read back as the
    64-bit word, and distinct words are printed differently. *)
Theorem print_bits_u64_roundtrip (x y : uint64_t) (Hx : is_u64 x) (Hy : is_u64 y) :
  read_number 2 (remove_blanks (output_of (print_bits_u64 x))) = x /\
  (output_of (print_bits_u64 x) = output_of (print_bits_u64 y) -> x = y).
Proof.
  assert (R : forall z, is_u64 z ->
                read_number 2 (remove_blanks (output_of (print_bits_u64 z))) = z).
  { intros z Hz. rewrite print_bits_u64_digits. unfold binary.
    rewrite read_binary. apply Z.mod_small. exact Hz. }
  split; [exact (R x Hx)|].
  intros E. rewrite <- (R x Hx), <- (R y Hy), E. reflexivity.
Qed.

Lemma print_bits_u64_roundtrip_witness :
  read_number 2 (remove_blanks (output_of (print_bits_u64 0x3FB999999999999A)))
    = 0x3FB999999999999A.
Proof.
  refine (proj1 (print_bits_u64_roundtrip 0x3FB999999999999A 0 _ _));
    unfold is_u64; lia.
Defined.

Lemma binary_field (w : nat) (lo u : Z) :
  0 <= lo ->
  binary_from w 0 (Z.land (Z.shiftr u lo) (Z.ones (Z.of_nat w))) = binary_from w lo u.
Proof.
  intros Hlo. apply binary_from_ext. intros k Hk.
  rewrite Z.land_spec, Z.shiftr_spec, Z.testbit_ones_nonneg by lia.
  rewrite (proj2 (Z.ltb_lt _ _)) by lia. rewrite andb_true_r. f_equal. lia.
Qed.

Lemma binary_low (w : nat) (u : Z) :
  binary_from w 0 (Z.land u (Z.ones (Z.of_nat w))) = binary_from w 0 u.
Proof.
  apply binary_from_ext. intros k Hk.
  rewrite Z.land_spec, Z.testbit_ones_nonneg by lia.
  rewrite (proj2 (Z.ltb_lt _ _)) by lia. now rewrite andb_true_r.
Qed.

Lemma print_bits_u32_fields (f : float) :
  output_of (print_bits_u32 (raw (float_bits f))) =
    String.append (binary 1 (sign (float_bits f)))
      (String " " (String.append (binary 8 (exponent (float_bits f)))
         (String " " (binary 23 (fraction (float_bits f)))))).
Proof.
  rewrite output_print_bits_u32. unfold float_bits, binary.
  cbn [raw sign exponent fraction].
  set (u := float_to_u32 f).
  pose proof (binary_field 1 31 u ltac:(lia)) as Hs.
  pose proof (binary_field 8 23 u ltac:(lia)) as He.
  pose proof (binary_low 23 u) as Hm.
  change (Z.ones (Z.of_nat 1)) with 1 in Hs.
  change (Z.ones (Z.of_nat 8)) with 255 in He.
  change (Z.ones (Z.of_nat 23)) with 8388607 in Hm.
  rewrite Hs, He, Hm. reflexivity.
Qed.

Lemma print_bits_u64_fields (d : double) :
  output_of (print_bits_u64 (raw (double_bits d))) =
    String.append (binary 1 (sign (double_bits d)))
      (String " " (String.append (binary 11 (exponent (double_bits d)))
         (String " " (binary 52 (fraction (double_bits d)))))).
Proof.
  rewrite output_print_bits_u64. unfold double_bits, binary.
  cbn [raw sign exponent fraction].
  set (u := double_to_u64 d).
  pose proof (binary_field 1 63 u ltac:(lia)) as Hs.
  pose proof (binary_field 11 52 u ltac:(lia)) as He.
  pose proof (binary_low 52 u) as Hm.
  change (Z.ones (Z.of_nat 1)) with 1 in Hs.
  change (Z.ones (Z.of_nat 11)) with 2047 in He.
  change (Z.ones (Z.of_nat 52)) with 4503599627370495 in Hm.
  rewrite Hs, He, Hm. reflexivity.
Qed.

(** X5. The blanks fall on the field boundaries: what the decoders pass
    to [print_bits_u32] and [print_bits_u64] comes out as the sign bit, the
    exponent in 8 (resp. 11) binary digits and the fraction in 23 (resp.
    52) binary digits. *)
Theorem print_bits_groups_are_fields (f : float) (d : double) :
  output_of (print_bits_u32 (raw (float_bits f))) =
    String.append (binary 1 (sign (float_bits f)))
      (String " " (String.append (binary 8 (exponent (float_bits f)))
         (String " " (binary 23 (fraction (float_bits f)))))) /\
  output_of (print_bits_u64 (raw (double_bits d))) =
    String.append (binary 1 (sign (double_bits d)))
      (String " " (String.append (binary 11 (exponent (double_bits d)))
         (String " " (binary 52 (fraction (double_bits d)))))).
Proof.
  split; [apply print_bits_u32_fields | apply print_bits_u64_fields].
Qed.

(** ** The reports of [decode_float] and [decode_double] *)

Lemma pad_no_width (z : bool) (s : string) : pad z 0 s = s.
Proof.
  unfold pad. replace (Z.to_nat (0 - Z.of_nat (String.length s))) with 0%nat by lia.
  reflexivity.
Qed.

Lemma output_value_float (f : float) :
  output_of (printf "float = %.9g\n" [promote f]) = value_line_float f.
Proof.
  unfold value_line_float.
  rewrite <- (pad_no_width false (fmt_g (Some 9) (float_signbit f) (float_value f))).
  reflexivity.
Qed.

Lemma output_value_double (d : double) :
  output_of (printf "double = %.17g\n" [arg_double d]) = value_line_double d.
Proof.
  unfold value_line_double.
  rewrite <- (pad_no_width false (fmt_g (Some 17) (double_signbit d) (double_value d))).
  reflexivity.
Qed.

Lemma fmt_sign_digit (cv : conv) (s : Z) :
  c_width cv = 0 -> s = 0 \/ s = 1 ->
  fmt_unsigned 10 cv s = String (digit_char s) EmptyString.
Proof.
  intros Hw Hs. unfold fmt_unsigned. rewrite Hw, pad_no_width.
  unfold wrap_arg.
  destruct Hs as [-> | ->]; destruct (Nat.leb 2 (c_long cv)); reflexivity.
Qed.

Lemma output_sign_float (s : Z) :
  s = 0 \/ s = 1 ->
  output_of (printf "sign  = %u\n" [ArgU s]) =
    String.append (C "sign  = ") (String (digit_char s) (C "\n")).
Proof.
  intros Hs.
  change (output_of (printf "sign  = %u\n" [ArgU s]))
    with (String.append (C "sign  = ")
            (String.append (fmt_unsigned 10 conv0 s) (C "\n"))).
  now rewrite (fmt_sign_digit conv0 s eq_refl Hs).
Qed.

Lemma output_sign_double (s : Z) :
  s = 0 \/ s = 1 ->
  output_of (printf "sign   = %llu\n" [ArgU (ull s)]) =
    String.append (C "sign   = ") (String (digit_char s) (C "\n")).
Proof.
  intros Hs.
  change (output_of (printf "sign   = %llu\n" [ArgU (ull s)]))
    with (String.append (C "sign   = ")
            (String.append (fmt_unsigned 10 (mkConv false 0 None 2) (ull s)) (C "\n"))).
  assert (Hu : ull s = s) by (destruct Hs as [-> | ->]; reflexivity).
  now rewrite Hu, (fmt_sign_digit (mkConv false 0 None 2) s eq_refl Hs).
Qed.

Lemma decode_float_output (f : float) :
  output_of (decode_float f) =
    String.append (value_line_float f)
      (String.append (bits_line_float (float_bits f))
         (String.append (sign_line_float (float_bits f))
            (String.append (exp_line_float (float_bits f))
               (frac_line_float (float_bits f))))).
Proof.
  pose proof (print_bits_u32_fields f) as Hbits.
  destruct (float_fields_in_bounds f) as (Hs & _).
  unfold bits_line_float, sign_line_float.
  rewrite <- (output_sign_float _ Hs), <- output_value_float.
  revert Hbits. unfold decode_float, float_bits. cbn [raw sign exponent fraction].
  intros Hbits.
  repeat (rewrite output_bind;
          [| repeat first [io_step | apply behaves_print_bits_u32]
           | intros ?; repeat first [io_step | apply behaves_print_bits_u32] ]).
  rewrite Hbits.
  rewrite !append_assoc. cbn [String.append]. rewrite !append_assoc.
  reflexivity.
Qed.

Lemma decode_double_output (d : double) :
  output_of (decode_double d) =
    String.append (value_line_double d)
      (String.append (bits_line_double (double_bits d))
         (String.append (sign_line_double (double_bits d))
            (String.append (exp_line_double (double_bits d))
               (frac_line_double (double_bits d))))).
Proof.
  pose proof (print_bits_u64_fields d) as Hbits.
  destruct (double_fields_in_bounds d) as (Hs & _).
  unfold bits_line_double, sign_line_double.
  rewrite <- (output_sign_double _ Hs), <- output_value_double.
  revert Hbits. unfold decode_double, double_bits. cbn [raw sign exponent fraction].
  intros Hbits.
  repeat (rewrite output_bind;
          [| repeat first [io_step | apply behaves_print_bits_u64]
           | intros ?; repeat first [io_step | apply behaves_print_bits_u64] ]).
  rewrite Hbits.
  rewrite !append_assoc. cbn [String.append]. rewrite !append_assoc.
  reflexivity.
Qed.

(** X6. Whatever the input and the state of the world, [decode_float]
    appends these five lines to standard output, in this order, and
    touches nothing else: the value with 9 significant digits, the 32 bits grouped as
    sign, exponent and fraction, the sign as the single digit 0 or 1, the
    exponent in hexadecimal and decimal, the fraction in hexadecimal and
    decimal. *)
Theorem decode_float_report (f : float) :
  emits (decode_float f) tt
    (String.append (value_line_float f)
       (String.append (bits_line_float (float_bits f))
          (String.append (sign_line_float (float_bits f))
             (String.append (exp_line_float (float_bits f))
                (frac_line_float (float_bits f)))))) /\
  (sign_line_float (float_bits f) = C "sign  = 0\n" \/
   sign_line_float (float_bits f) = C "sign  = 1\n") /\
  String.length (bits_line_float (float_bits f)) = 43%nat.
Proof.
  split; [|split].
  - pose proof (behaves_emits _ (behaves_decode_float f)) as H.
    rewrite decode_float_output in H.
    destruct (result_of (decode_float f)). exact H.
  - destruct (float_fields_in_bounds f) as (Hs & _).
    unfold sign_line_float. destruct Hs as [-> | ->]; [left | right]; reflexivity.
  - unfold bits_line_float, binary.
    rewrite length_append. cbn [String.length C Ascii.eqb Bool.eqb].
    rewrite length_append, length_binary_from. cbn [String.length].
    rewrite length_append, length_binary_from. cbn [String.length].
    rewrite length_append, length_binary_from. reflexivity.
Qed.

(** X7. Likewise [decode_double] appends these five lines: the value
    with 17 significant digits, the 64 bits grouped as sign, exponent and
    fraction, the sign digit, the exponent in hexadecimal and decimal, and
    the fraction in hexadecimal. *)
Theorem decode_double_report (d : double) :
  emits (decode_double d) tt
    (String.append (value_line_double d)
       (String.append (bits_line_double (double_bits d))
          (String.append (sign_line_double (double_bits d))
             (String.append (exp_line_double (double_bits d))
                (frac_line_double (double_bits d)))))) /\
  (sign_line_double (double_bits d) = C "sign   = 0\n" \/
   sign_line_double (double_bits d) = C "sign   = 1\n") /\
  String.length (bits_line_double (double_bits d)) = 76%nat.
Proof.
  split; [|split].
  - pose proof (behaves_emits _ (behaves_decode_double d)) as H.
    rewrite decode_double_output in H.
    destruct (result_of (decode_double d)). exact H.
  - destruct (double_fields_in_bounds d) as (Hs & _).
    unfold sign_line_double. destruct Hs as [-> | ->]; [left | right]; reflexivity.
  - unfold bits_line_double, binary.
    rewrite length_append. cbn [String.length C Ascii.eqb Bool.eqb].
    rewrite length_append, length_binary_from. cbn [String.length].
    rewrite length_append, length_binary_from. cbn [String.length].
    rewrite length_append, length_binary_from. reflexivity.
Qed.

(** ** The value behind the fields *)

Lemma float_signbit_sign (f : float) :
  is_float f -> float_signbit f = (sign (float_bits f) =? 1).
Proof.
  intros Hf. rewrite (float_bits_arith f Hf). cbn [sign].
  unfold float_signbit, IEEE.sign_of_bits.
  change (2 ^ (24 - 1) * (2 * 128)) with (2 ^ 31). unfold is_float in Hf.
  assert (H : f / 2 ^ 31 = 0 \/ f / 2 ^ 31 = 1) by field_arith.
  destruct H as [-> | ->]; reflexivity.
Qed.

Lemma double_signbit_sign (d : double) :
  is_double d -> double_signbit d = (sign (double_bits d) =? 1).
Proof.
  intros Hd. rewrite (double_bits_arith d Hd). cbn [sign].
  unfold double_signbit, IEEE.sign_of_bits.
  change (2 ^ (53 - 1) * (2 * 1024)) with (2 ^ 63). unfold is_double in Hd.
  assert (H : d / 2 ^ 63 = 0 \/ d / 2 ^ 63 = 1) by field_arith.
  destruct H as [-> | ->]; reflexivity.
Qed.

Lemma float_value_fields (f : float) :
  is_float f ->
  float_value f =
    IEEE.SF_of_fields 24 128 (sign (float_bits f) =? 1)
      (exponent (float_bits f)) (fraction (float_bits f)).
Proof.
  intros Hf. rewrite <- (float_signbit_sign f Hf).
  rewrite (float_bits_arith f Hf). reflexivity.
Qed.

Lemma double_value_fields (d : double) :
  is_double d ->
  double_value d =
    IEEE.SF_of_fields 53 1024 (sign (double_bits d) =? 1)
      (exponent (double_bits d)) (fraction (double_bits d)).
Proof.
  intros Hd. rewrite <- (double_signbit_sign d Hd).
  rewrite (double_bits_arith d Hd). reflexivity.
Qed.

Lemma SF_of_fields_cases (prec emax : Z) (s : bool) (e m : Z) :
  0 <= m -> 0 < 2 ^ (prec - 1) ->
  (e = 0 /\ m = 0 -> IEEE.SF_of_fields prec emax s e m = S754_zero s) /\
  (e = 0 /\ m <> 0 ->
     IEEE.SF_of_fields prec emax s e m = S754_finite s (Z.to_pos m) (emin prec emax)) /\
  (0 < e < IEEE.biased_max emax ->
     IEEE.SF_of_fields prec emax s e m =
       S754_finite s (Z.to_pos (2 ^ (prec - 1) + m)) (e + emin prec emax - 1)) /\
  (e = IEEE.biased_max emax /\ 0 < e /\ m = 0 ->
     IEEE.SF_of_fields prec emax s e m = S754_infinity s) /\
  (e = IEEE.biased_max emax /\ 0 < e /\ m <> 0 ->
     IEEE.SF_of_fields prec emax s e m = S754_nan).
Proof.
  intros Hm Hp. unfold IEEE.SF_of_fields.
  repeat apply conj.
  - intros [-> ->]. reflexivity.
  - intros [-> Hne]. cbn [Z.eqb]. destruct m as [|p|p]; [lia|reflexivity|lia].
  - intros He.
    destruct (Z.eqb_spec e 0); [lia|].
    destruct (Z.eqb_spec e (IEEE.biased_max emax)); [lia|].
    rewrite (Z.add_comm (2 ^ (prec - 1)) m).
    destruct (m + 2 ^ (prec - 1)) as [|p|p] eqn:E; [lia|reflexivity|lia].
  - intros (He & Hpos & ->).
    destruct (Z.eqb_spec e 0); [lia|].
    destruct (Z.eqb_spec e (IEEE.biased_max emax)); [reflexivity|lia].
  - intros (He & Hpos & Hne).
    destruct (Z.eqb_spec e 0); [lia|].
    destruct (Z.eqb_spec e (IEEE.biased_max emax)); [|lia].
    destruct (Z.eqb_spec m 0); [lia|reflexivity].
Qed.

(** X8. The value [decode_float] prints on its first line is the one the
    documented formulas give for the fields it prints below: with sign
    [s], biased exponent [e] and fraction [m], zero for [e = 0, m = 0];
    [m * 2^(1 - 127 - 23)] for [e = 0, m <> 0];
    [(2^23 + m) * 2^(e - 127 - 23)] for [0 < e < 255]; infinity for
    [e = 255, m = 0]; NaN for [e = 255, m <> 0]. *)
Theorem float_value_of_fields (f : float) (Hf : is_float f) :
  let b := float_bits f in
  let s := sign b =? 1 in
  (class_of b SignedZero -> float_value f = S754_zero s) /\
  (class_of b Subnormal ->
     float_value f = S754_finite s (Z.to_pos (fraction b)) (1 - 127 - 23)) /\
  (class_of b Normal ->
     float_value f =
       S754_finite s (Z.to_pos (2 ^ 23 + fraction b)) (exponent b - 127 - 23)) /\
  (class_of b SignedInfinity -> float_value f = S754_infinity s) /\
  (class_of b NaN -> float_value f = S754_nan).
Proof.
  cbv zeta. rewrite (float_value_fields f Hf).
  destruct (float_fields_in_bounds f) as (_ & He & Hm).
  destruct (SF_of_fields_cases 24 128 (sign (float_bits f) =? 1)
              (exponent (float_bits f)) (fraction (float_bits f)))
    as (H0 & H1 & H2 & H3 & H4); [lia | reflexivity |].
  unfold class_of, row. change (E_max (width (float_bits f))) with 255.
  change (IEEE.biased_max 128) with 255 in *.
  repeat apply conj; intros H.
  - apply H0. exact H.
  - rewrite H1 by exact H. reflexivity.
  - rewrite H2 by exact H. f_equal. unfold emin. lia.
  - apply H3. lia.
  - apply H4. lia.
Qed.

Lemma float_value_of_fields_witness :
  float_value 0x00000001 = S754_finite false 1 (1 - 127 - 23).
Proof.
  refine (proj1 (proj2 (float_value_of_fields 0x00000001 _)) _).
  - unfold is_float. lia.
  - vm_compute. split; [reflexivity | discriminate].
Defined.

(** X9. The same for [decode_double], with bias 1023 and 52 fraction
    bits: zero, [m * 2^(1 - 1023 - 52)], [(2^52 + m) * 2^(e - 1023 - 52)]
    for [0 < e < 2047], infinity, NaN. *)
Theorem double_value_of_fields (d : double) (Hd : is_double d) :
  let b := double_bits d in
  let s := sign b =? 1 in
  (class_of b SignedZero -> double_value d = S754_zero s) /\
  (class_of b Subnormal ->
     double_value d = S754_finite s (Z.to_pos (fraction b)) (1 - 1023 - 52)) /\
  (class_of b Normal ->
     double_value d =
       S754_finite s (Z.to_pos (2 ^ 52 + fraction b)) (exponent b - 1023 - 52)) /\
  (class_of b SignedInfinity -> double_value d = S754_infinity s) /\
  (class_of b NaN -> double_value d = S754_nan).
Proof.
  cbv zeta. rewrite (double_value_fields d Hd).
  destruct (double_fields_in_bounds d) as (_ & He & Hm).
  destruct (SF_of_fields_cases 53 1024 (sign (double_bits d) =? 1)
              (exponent (double_bits d)) (fraction (double_bits d)))
    as (H0 & H1 & H2 & H3 & H4); [lia | reflexivity |].
  unfold class_of, row. change (E_max (width (double_bits d))) with 2047.
  change (IEEE.biased_max 1024) with 2047 in *.
  repeat apply conj; intros H.
  - apply H0. exact H.
  - rewrite H1 by exact H. reflexivity.
  - rewrite H2 by exact H. f_equal. unfold emin. lia.
  - apply H3. lia.
  - apply H4. lia.
Qed.

Lemma double_value_of_fields_witness :
  double_value 0x7FF0000000000000 = S754_infinity false.
Proof.
  refine (proj1 (proj2 (proj2 (proj2 (double_value_of_fields 0x7FF0000000000000 _)))) _).
  - unfold is_double. lia.
  - vm_compute. split; reflexivity.
Defined.

(** ** [float_to_u32] and [double_to_u64] *)

Lemma bits_of_SF_of_fields (prec emax : Z) (s : bool) (e m : Z) :
  0 < 2 ^ (prec - 1) -> 0 <= m < 2 ^ (prec - 1) ->
  IEEE.SF_of_fields prec emax s e m <> S754_nan ->
  IEEE.bits_of_SF prec emax (IEEE.SF_of_fields prec emax s e m) =
    IEEE.pack prec emax s e m.
Proof.
  intros Hp Hm. unfold IEEE.SF_of_fields.
  destruct (Z.eqb_spec e 0) as [-> | He0].
  - destruct m as [|p|p]; intros _; cbn [IEEE.bits_of_SF]; [reflexivity| |lia].
    destruct (Z.leb_spec (2 ^ (prec - 1)) (Z.pos p)); [lia|reflexivity].
  - destruct (Z.eqb_spec e (IEEE.biased_max emax)) as [-> | Hemax].
    + destruct (Z.eqb_spec m 0) as [-> | Hm0]; intros Hn; [reflexivity|congruence].
    + destruct (m + 2 ^ (prec - 1)) as [|p|p] eqn:E; intros _; [lia| |lia].
      cbn [IEEE.bits_of_SF].
      destruct (Z.leb_spec (2 ^ (prec - 1)) (Z.pos p)); [|lia].
      unfold IEEE.pack. f_equal; [f_equal|]; lia.
Qed.

(** X10. What [float_to_u32] and [double_to_u64] return is the IEEE-754
    interchange encoding of the argument's value: for every [float] and
    [double] that is not a NaN, encoding the value gives back the very
    integer the decoders work on (the sign of a zero included). *)
Theorem storage_is_encoding (f : float) (d : double)
    (Hf : is_float f) (Hd : is_double d)
    (Nf : float_value f <> S754_nan) (Nd : double_value d <> S754_nan) :
  float_of_SF (float_value f) = float_to_u32 f /\
  double_of_SF (double_value d) = double_to_u64 d.
Proof.
  split.
  - rewrite (float_to_u32_id f Hf). unfold float_of_SF, float_value, IEEE.SF_of_bits in *.
    cbv zeta in *. unfold is_float in Hf.
    rewrite bits_of_SF_of_fields; [|reflexivity|apply Z.mod_pos_bound; reflexivity|exact Nf].
    unfold IEEE.pack, IEEE.sign_of_bits.
    change (2 ^ (24 - 1) * (2 * 128)) with (2 ^ 31).
    change (24 - 1) with 23. change (2 * 128) with (2 ^ 8).
    assert (H : f / 2 ^ 31 = 0 \/ f / 2 ^ 31 = 1) by field_arith.
    destruct H as [H | H]; rewrite H; cbn [Z.odd]; field_arith.
  - rewrite (double_to_u64_id d Hd).
    unfold double_of_SF, double_value, IEEE.SF_of_bits in *.
    cbv zeta in *. unfold is_double in Hd.
    rewrite bits_of_SF_of_fields; [|reflexivity|apply Z.mod_pos_bound; reflexivity|exact Nd].
    unfold IEEE.pack, IEEE.sign_of_bits.
    change (2 ^ (53 - 1) * (2 * 1024)) with (2 ^ 63).
    change (53 - 1) with 52. change (2 * 1024) with (2 ^ 11).
    assert (H : d / 2 ^ 63 = 0 \/ d / 2 ^ 63 = 1) by field_arith.
    destruct H as [H | H]; rewrite H; cbn [Z.odd]; field_arith.
Qed.

Lemma storage_is_encoding_witness :
  float_of_SF (float_value 0x80000000) = float_to_u32 0x80000000 /\
  double_of_SF (double_value 0x3FB999999999999A) = double_to_u64 0x3FB999999999999A.
Proof.
  apply (storage_is_encoding 0x80000000 0x3FB999999999999A).
  - unfold is_float. lia.
  - unfold is_double. lia.
  - vm_compute. discriminate.
  - vm_compute. discriminate.
Defined.

(** ** Negation of any value *)


